(** * Reqline: validator and executor

    A shallow embedding of the reqline validator ([ReqlineValidator]), the
    message table ([ReqlineMessages]) and the request executor
    ([ReqlineExecutor]), with the properties of the specification stated
    and proved over it.

    Conventions of the embedding.
    - A JavaScript string that comes from the reqline text is a [string]:
      each [ascii] is one UTF-16 code unit in the range U+0000..U+00FF.
      Strings produced by [JSON.parse] may hold any code unit (through
      [\uXXXX] escapes) and are lists of code units ([ustring]).
    - [throwAppError] is the error monad [M]: the first error raised ends
      the computation.
    - What the JavaScript engine and the HTTP client decide (the text of
      binary64 numbers, the text of native error messages, the clock, the
      outcome of the network call) is an explicit argument. *)

From Stdlib Require Import Bool Arith List ZArith NArith Lia.
From Stdlib Require Import Ascii String DecimalString.
Import ListNotations.

Local Open Scope string_scope.
Local Open Scope Z_scope.

(* ===================================================================== *)
(** * The string built-ins the source calls *)
(* ===================================================================== *)

Module JS.

(** Code units of a string, for values that may leave U+0000..U+00FF. *)
Definition ustring := list N.

Definition code_units (s : string) : ustring :=
  map N_of_ascii (list_ascii_of_string s).

Fixpoint ustring_eqb (a b : ustring) : bool :=
  match a, b with
  | [], [] => true
  | x :: a', y :: b' => N.eqb x y && ustring_eqb a' b'
  | _, _ => false
  end.

(** [WhiteSpace] and [LineTerminator] code units below U+0100: TAB, LF, VT,
    FF, CR, SPACE and NBSP. *)
Definition isWhiteSpace (c : ascii) : bool :=
  let n := N_of_ascii c in
  (((9 <=? n) && (n <=? 13)) || (n =? 32) || (n =? 160))%N.

(** [String.prototype.trimStart] *)
Fixpoint trimStart (s : string) : string :=
  match s with
  | EmptyString => EmptyString
  | String c r => if isWhiteSpace c then trimStart r else s
  end.

(** [String.prototype.trimEnd] *)
Fixpoint trimEnd (s : string) : string :=
  match s with
  | EmptyString => EmptyString
  | String c r =>
      match trimEnd r with
      | EmptyString => if isWhiteSpace c then EmptyString else String c EmptyString
      | r' => String c r'
      end
  end.

(** [String.prototype.trim] *)
Definition trim (s : string) : string := trimEnd (trimStart s).

(** [String.prototype.startsWith] (position 0) *)
Definition startsWith (pat s : string) : bool := prefix pat s.

(** [s.substring(n)] for [0 <= n], as a count of code units to skip. *)
Fixpoint drop (n : nat) (s : string) : string :=
  match n, s with
  | O, _ => s
  | S _, EmptyString => EmptyString
  | S n', String _ r => drop n' r
  end.

Fixpoint take (n : nat) (s : string) : string :=
  match n, s with
  | O, _ => EmptyString
  | S _, EmptyString => EmptyString
  | S n', String c r => String c (take n' r)
  end.

(** [String.prototype.endsWith] (end position [s.length]) *)
Definition endsWith (pat s : string) : bool :=
  (String.length pat <=? String.length s)%nat
  && String.eqb (drop (String.length s - String.length pat) s) pat.

(** [String.prototype.indexOf] (from position 0); [-1] when absent. *)
Fixpoint indexOf (pat s : string) : Z :=
  if prefix pat s then 0
  else match s with
       | EmptyString => -1
       | String _ r => let i := indexOf pat r in if i =? -1 then -1 else i + 1
       end.

(** [String.prototype.includes] *)
Definition includes (pat s : string) : bool := negb (indexOf pat s =? -1).

Definition clamp (len i : Z) : Z := Z.min (Z.max i 0) len.

(** [String.prototype.substring(start, end)]: both ends are clamped to
    [0..length] and swapped when out of order. *)
Definition substring (s : string) (start fin : Z) : string :=
  let len := Z.of_nat (String.length s) in
  let a := clamp len start in
  let b := clamp len fin in
  let lo := Z.min a b in
  let hi := Z.max a b in
  take (Z.to_nat (hi - lo)) (drop (Z.to_nat lo) s).

(** [String.prototype.substring(start)] *)
Definition substringFrom (s : string) (start : Z) : string :=
  substring s start (Z.of_nat (String.length s)).

(** [String.prototype.split] with a separator of one code unit: the
    pieces between the occurrences, always at least one piece. *)
Fixpoint split (sep : ascii) (s : string) : list string :=
  match s with
  | EmptyString => [EmptyString]
  | String c r =>
      if Ascii.eqb c sep then EmptyString :: split sep r
      else match split sep r with
           | [] => [String c EmptyString]
           | w :: ws => String c w :: ws
           end
  end.

(** [Array.prototype.includes] on an array of strings *)
Definition arrayIncludes (x : string) (l : list string) : bool :=
  existsb (String.eqb x) l.

(** Upper case of one code unit below U+0100 (Unicode simple and special
    casing): a-z, the Latin-1 letters, and the three code units whose
    upper case leaves the range (U+00B5, U+00DF, U+00FF). *)
Definition upperCodeUnit (c : ascii) : ustring :=
  let n := N_of_ascii c in
  (if (97 <=? n) && (n <=? 122) then [n - 32]
   else if n =? 181 then [924]
   else if n =? 223 then [83; 83]
   else if (224 <=? n) && (n <=? 254) && negb (n =? 247) then [n - 32]
   else if n =? 255 then [376]
   else [n])%N.

(** [String.prototype.toUpperCase] *)
Fixpoint toUpperCase (s : string) : ustring :=
  match s with
  | EmptyString => []
  | String c r => (upperCodeUnit c ++ toUpperCase r)%list
  end.

(** [s !== s.toUpperCase()] *)
Definition differsFromUpperCase (s : string) : bool :=
  negb (ustring_eqb (code_units s) (toUpperCase s)).

End JS.

(* ===================================================================== *)
(** * JSON values and [JSON.parse] *)
(* ===================================================================== *)

Module JSON.
Import JS.

(** A number read from a JSON text.  An integer literal of magnitude at
    most 2^53 is that integer, exactly; any other literal (a fraction, an
    exponent, a larger integer, [-0]) is kept as its text, and the binary64
    value it rounds to is left to the engine. *)
Inductive number :=
| Int (z : Z)
| Dec (lit : string).

#[warnings="-register-all"]
Inductive json :=
| JNull
| JBool (b : bool)
| JNum (n : number)
| JStr (s : ustring)
| JArr (elems : list json)
| JObj (members : list (ustring * json)).

(** The own properties of an object, in creation order. *)
Definition object := list (ustring * json).

(** [CreateDataProperty]: a key that exists keeps its place and takes the
    new value; a new key goes last. *)
Fixpoint setProperty (o : object) (k : ustring) (v : json) : object :=
  match o with
  | [] => [(k, v)]
  | (k', v') :: o' =>
      if ustring_eqb k' k then (k', v) :: o' else (k', v') :: setProperty o' k v
  end.

Inductive token :=
| TLBrace | TRBrace | TLBracket | TRBracket | TColon | TComma
| TString (s : ustring)
| TNumber (lit : string)
| TTrue | TFalse | TNull.

Inductive numState :=
| NMinus | NZero | NInt | NDot | NFrac | NE | NESign | NExp.

Inductive lexState :=
| LStart
| LString (acc : ustring)
| LEscape (acc : ustring)
| LUnicode (acc : ustring) (remaining : nat) (v : N)
| LNumber (ns : numState) (lit : string)
| LLiteral (rest : string) (tok : token).

(** JSON white space: TAB, LF, CR, SPACE. *)
Definition isJsonWhiteSpace (c : ascii) : bool :=
  let n := N_of_ascii c in ((n =? 9) || (n =? 10) || (n =? 13) || (n =? 32))%N.

Definition isDigit (c : ascii) : bool :=
  let n := N_of_ascii c in ((48 <=? n) && (n <=? 57))%N.

Definition digitValue (c : ascii) : N := (N_of_ascii c - 48)%N.

Definition hexValue (c : ascii) : option N :=
  let n := N_of_ascii c in
  (if (48 <=? n) && (n <=? 57) then Some (n - 48)
   else if (65 <=? n) && (n <=? 70) then Some (n - 55)
   else if (97 <=? n) && (n <=? 102) then Some (n - 87)
   else None)%N.

Definition isExponentMark (c : ascii) : bool :=
  Ascii.eqb c "e" || Ascii.eqb c "E".

(** The number grammar (an optional minus; a zero, or a non-zero digit and
    more digits; an optional fraction; an optional exponent) as an
    automaton; [None] when [c] cannot continue the literal. *)
Definition numStep (ns : numState) (c : ascii) : option numState :=
  match ns with
  | NMinus => if Ascii.eqb c "0" then Some NZero
              else if isDigit c then Some NInt else None
  | NZero => if Ascii.eqb c "." then Some NDot
             else if isExponentMark c then Some NE else None
  | NInt => if isDigit c then Some NInt
            else if Ascii.eqb c "." then Some NDot
            else if isExponentMark c then Some NE else None
  | NDot => if isDigit c then Some NFrac else None
  | NFrac => if isDigit c then Some NFrac
             else if isExponentMark c then Some NE else None
  | NE => if Ascii.eqb c "+" || Ascii.eqb c "-" then Some NESign
          else if isDigit c then Some NExp else None
  | NESign => if isDigit c then Some NExp else None
  | NExp => if isDigit c then Some NExp else None
  end.

Definition numAccepting (ns : numState) : bool :=
  match ns with
  | NZero | NInt | NFrac | NExp => true
  | _ => false
  end.

Definition snoc (s : string) (c : ascii) : string := s ++ String c EmptyString.

(** A code unit met between two tokens. *)
Definition startStep (c : ascii) : option (lexState * list token) :=
  if isJsonWhiteSpace c then Some (LStart, [])
  else if Ascii.eqb c "{" then Some (LStart, [TLBrace])
  else if Ascii.eqb c "}" then Some (LStart, [TRBrace])
  else if Ascii.eqb c "[" then Some (LStart, [TLBracket])
  else if Ascii.eqb c "]" then Some (LStart, [TRBracket])
  else if Ascii.eqb c ":" then Some (LStart, [TColon])
  else if Ascii.eqb c "," then Some (LStart, [TComma])
  else if Ascii.eqb c "034" then Some (LString [], [])
  else if Ascii.eqb c "-" then Some (LNumber NMinus "-", [])
  else if Ascii.eqb c "0" then Some (LNumber NZero "0", [])
  else if isDigit c then Some (LNumber NInt (String c EmptyString), [])
  else if Ascii.eqb c "t" then Some (LLiteral "rue" TTrue, [])
  else if Ascii.eqb c "f" then Some (LLiteral "alse" TFalse, [])
  else if Ascii.eqb c "n" then Some (LLiteral "ull" TNull, [])
  else None.

Definition escapeStep (acc : ustring) (c : ascii) : option lexState :=
  if Ascii.eqb c "034" then Some (LString (34 :: acc)%N)
  else if Ascii.eqb c "\" then Some (LString (92 :: acc)%N)
  else if Ascii.eqb c "/" then Some (LString (47 :: acc)%N)
  else if Ascii.eqb c "b" then Some (LString (8 :: acc)%N)
  else if Ascii.eqb c "f" then Some (LString (12 :: acc)%N)
  else if Ascii.eqb c "n" then Some (LString (10 :: acc)%N)
  else if Ascii.eqb c "r" then Some (LString (13 :: acc)%N)
  else if Ascii.eqb c "t" then Some (LString (9 :: acc)%N)
  else if Ascii.eqb c "u" then Some (LUnicode acc 4 0%N)
  else None.

(** One code unit of the text: the next state and the tokens completed. *)
Definition lexStep (st : lexState) (c : ascii) : option (lexState * list token) :=
  match st with
  | LStart => startStep c
  | LString acc =>
      if Ascii.eqb c "034" then Some (LStart, [TString (rev acc)])
      else if Ascii.eqb c "\" then Some (LEscape acc, [])
      else if (N_of_ascii c <? 32)%N then None
      else Some (LString (N_of_ascii c :: acc), [])
  | LEscape acc =>
      match escapeStep acc c with
      | Some st' => Some (st', [])
      | None => None
      end
  | LUnicode acc remaining v =>
      match hexValue c with
      | None => None
      | Some d =>
          let v' := (v * 16 + d)%N in
          match remaining with
          | O | S O => Some (LString (v' :: acc), [])
          | S n => Some (LUnicode acc n v', [])
          end
      end
  | LNumber ns lit =>
      match numStep ns c with
      | Some ns' => Some (LNumber ns' (snoc lit c), [])
      | None =>
          if numAccepting ns then
            match startStep c with
            | Some (st', toks) => Some (st', TNumber lit :: toks)
            | None => None
            end
          else None
      end
  | LLiteral rest tok =>
      match rest with
      | EmptyString => None
      | String e rest' =>
          if Ascii.eqb c e then
            match rest' with
            | EmptyString => Some (LStart, [tok])
            | _ => Some (LLiteral rest' tok, [])
            end
          else None
      end
  end.

Definition lexEnd (st : lexState) : option (list token) :=
  match st with
  | LStart => Some []
  | LNumber ns lit => if numAccepting ns then Some [TNumber lit] else None
  | _ => None
  end.

Fixpoint lex (st : lexState) (s : string) : option (list token) :=
  match s with
  | EmptyString => lexEnd st
  | String c r =>
      match lexStep st c with
      | None => None
      | Some (st', toks) =>
          match lex st' r with
          | None => None
          | Some more => Some (toks ++ more)%list
          end
      end
  end.

(** The value of a run of decimal digits. *)
Fixpoint digitsValue (acc : Z) (s : string) : option Z :=
  match s with
  | EmptyString => Some acc
  | String c r =>
      if isDigit c then digitsValue (10 * acc + Z.of_N (digitValue c)) r else None
  end.

Definition numberOfLiteral (lit : string) : number :=
  match lit with
  | String c _ =>
      if Ascii.eqb c "-" then
        match digitsValue 0 (drop 1 lit) with
        | Some z => if (0 <? z) && (z <=? 2 ^ 53) then Int (- z) else Dec lit
        | None => Dec lit
        end
      else
        match digitsValue 0 lit with
        | Some z => if z <=? 2 ^ 53 then Int z else Dec lit
        | None => Dec lit
        end
  | EmptyString => Dec lit
  end.

(** An array or an object under construction. *)
Inductive frame :=
| InArr (elems : list json)
| InObj (members : object) (key : ustring).

Inductive mode :=
| MValue
| MArrStart
| MArrNext
| MObjKey (members : object) (mayClose : bool)
| MColon
| MObjNext (members : object)
| MDone (v : json).

(** A value is complete: it is the result, or it goes into the array or
    the object that is open. *)
Definition complete (v : json) (stack : list frame) : list frame * mode :=
  match stack with
  | [] => ([], MDone v)
  | InArr elems :: st => (InArr (v :: elems) :: st, MArrNext)
  | InObj members key :: st => (st, MObjNext (setProperty members key v))
  end.

Definition valueStep (stack : list frame) (t : token) : option (list frame * mode) :=
  match t with
  | TLBrace => Some (stack, MObjKey [] true)
  | TLBracket => Some (InArr [] :: stack, MArrStart)
  | TString s => Some (complete (JStr s) stack)
  | TNumber lit => Some (complete (JNum (numberOfLiteral lit)) stack)
  | TTrue => Some (complete (JBool true) stack)
  | TFalse => Some (complete (JBool false) stack)
  | TNull => Some (complete JNull stack)
  | _ => None
  end.

Definition closeArray (stack : list frame) : option (list frame * mode) :=
  match stack with
  | InArr elems :: st => Some (complete (JArr (rev elems)) st)
  | _ => None
  end.

Definition parseStep (stack : list frame) (m : mode) (t : token)
  : option (list frame * mode) :=
  match m with
  | MValue => valueStep stack t
  | MArrStart =>
      match t with
      | TRBracket => closeArray stack
      | _ => valueStep stack t
      end
  | MArrNext =>
      match t with
      | TComma => Some (stack, MValue)
      | TRBracket => closeArray stack
      | _ => None
      end
  | MObjKey members mayClose =>
      match t with
      | TString k => Some (InObj members k :: stack, MColon)
      | TRBrace => if mayClose then Some (complete (JObj members) stack) else None
      | _ => None
      end
  | MColon =>
      match t with
      | TColon => Some (stack, MValue)
      | _ => None
      end
  | MObjNext members =>
      match t with
      | TComma => Some (stack, MObjKey members false)
      | TRBrace => Some (complete (JObj members) stack)
      | _ => None
      end
  | MDone _ => None
  end.

Fixpoint parseTokens (stack : list frame) (m : mode) (ts : list token) : option json :=
  match ts with
  | [] => match stack, m with
          | [], MDone v => Some v
          | _, _ => None
          end
  | t :: ts' =>
      match parseStep stack m t with
      | None => None
      | Some (stack', m') => parseTokens stack' m' ts'
      end
  end.

(** [JSON.parse(text)] without a reviver; [None] is a [SyntaxError]. *)
Definition parse (text : string) : option json :=
  match lex LStart text with
  | None => None
  | Some ts => parseTokens [] MValue ts
  end.

End JSON.

Definition u (s : string) : JS.ustring := JS.code_units s.

(* ===================================================================== *)
(** * Errors *)
(* ===================================================================== *)

Module Errors.
Import JSON.

(** Modelled from the spec: [ERROR_CODE] of [@app-core/errors] is not part
    of the sources.  The spec names two kinds of failure, a validation
    failure and an execution failure distinct from it; the source spells
    them [ERROR_CODE.VALIDATIONERR] and [ERROR_CODE.APPERR]. *)
Inductive ERROR_CODE := VALIDATIONERR | APPERR.

(** What the source reads of a response of the HTTP client; [None] is
    [undefined]. *)
Record HttpResponse := mkHttpResponse {
  statusCode : option Z;
  status : option Z;
  data : option json
}.

(** The values the program throws or catches: the application error made
    by [throwAppError], an error raised by the engine ([TypeError],
    [URIError]), and the rejection of the HTTP client, which carries the
    remote response when there was one. *)
Inductive Exception :=
| AppError (message : string) (code : ERROR_CODE)
| NativeError (message : string)
| HttpError (message : string) (response : option HttpResponse).

(** [error.message] *)
Definition message (e : Exception) : string :=
  match e with
  | AppError m _ | NativeError m | HttpError m _ => m
  end.

(** [error.response] *)
Definition response (e : Exception) : option HttpResponse :=
  match e with
  | HttpError _ r => r
  | _ => None
  end.

(** A computation that returns a value or throws. *)
Inductive M (A : Type) :=
| Ok (a : A)
| Throw (e : Exception).
Arguments Ok {A} a.
Arguments Throw {A} e.

Definition bind {A B : Type} (c : M A) (k : A -> M B) : M B :=
  match c with
  | Ok a => k a
  | Throw e => Throw e
  end.

(** Modelled from the spec: [throwAppError] of [@app-core/errors] is not
    part of the sources.  It fails with an error that carries the message
    and the kind it is given. *)
Definition throwAppError {A : Type} (msg : string) (code : ERROR_CODE) : M A :=
  Throw (AppError msg code).

(** [array.forEach((x, index) => ...)] where the callback updates the
    variables [st] of the enclosing function and may throw. *)
Fixpoint forEach {A St : Type} (f : St -> A -> nat -> M St) (l : list A) (index : nat) (st : St)
  : M St :=
  match l with
  | [] => Ok st
  | x :: l' => bind (f st x index) (forEach f l' (S index))
  end.

End Errors.

Notation "x <- c ;; k" := (Errors.bind c (fun x => k))
  (at level 61, c at next level, right associativity).
Notation "c ;;; k" := (Errors.bind c (fun _ => k))
  (at level 61, right associativity).

(* ===================================================================== *)
(** * The message table *)
(* ===================================================================== *)

Module ReqlineMessages.

Definition MISSING_HTTP_KEYWORD := "Missing required HTTP keyword".
Definition MISSING_URL_KEYWORD := "Missing required URL keyword".
Definition INVALID_HTTP_METHOD := "Invalid HTTP method. Only GET and POST are supported".
Definition HTTP_METHOD_MUST_BE_UPPERCASE := "HTTP method must be uppercase".
Definition KEYWORDS_MUST_BE_UPPERCASE := "Keywords must be uppercase".
Definition MISSING_SPACE_AFTER_KEYWORD := "Missing space after keyword".
Definition MULTIPLE_SPACES_FOUND := "Multiple spaces found where single space expected".
Definition INVALID_SPACING_AROUND_PIPE := "Invalid spacing around pipe delimiter".
Definition INVALID_JSON_FORMAT_HEADERS := "Invalid JSON format in HEADERS section".
Definition INVALID_JSON_FORMAT_QUERY := "Invalid JSON format in QUERY section".
Definition INVALID_JSON_FORMAT_BODY := "Invalid JSON format in BODY section".
Definition EMPTY_REQLINE := "Reqline string cannot be empty".
Definition HTTP_MUST_BE_FIRST := "HTTP keyword must be first".
Definition URL_MUST_BE_SECOND := "URL keyword must be second".
Definition DUPLICATE_HTTP_KEYWORD := "HTTP keyword can only appear once".
Definition DUPLICATE_URL_KEYWORD := "URL keyword can only appear once".
Definition INVALID_URL_FORMAT := "Invalid URL format".
Definition UNKNOWN_KEYWORD := "Unknown keyword found".
Definition MISSING_PIPE_DELIMITER := "Missing pipe delimiter".

(** The table as an object, for the accesses by computed key. *)
Definition table : list (string * string) :=
  [ ("MISSING_HTTP_KEYWORD", MISSING_HTTP_KEYWORD);
    ("MISSING_URL_KEYWORD", MISSING_URL_KEYWORD);
    ("INVALID_HTTP_METHOD", INVALID_HTTP_METHOD);
    ("HTTP_METHOD_MUST_BE_UPPERCASE", HTTP_METHOD_MUST_BE_UPPERCASE);
    ("KEYWORDS_MUST_BE_UPPERCASE", KEYWORDS_MUST_BE_UPPERCASE);
    ("MISSING_SPACE_AFTER_KEYWORD", MISSING_SPACE_AFTER_KEYWORD);
    ("MULTIPLE_SPACES_FOUND", MULTIPLE_SPACES_FOUND);
    ("INVALID_SPACING_AROUND_PIPE", INVALID_SPACING_AROUND_PIPE);
    ("INVALID_JSON_FORMAT_HEADERS", INVALID_JSON_FORMAT_HEADERS);
    ("INVALID_JSON_FORMAT_QUERY", INVALID_JSON_FORMAT_QUERY);
    ("INVALID_JSON_FORMAT_BODY", INVALID_JSON_FORMAT_BODY);
    ("EMPTY_REQLINE", EMPTY_REQLINE);
    ("HTTP_MUST_BE_FIRST", HTTP_MUST_BE_FIRST);
    ("URL_MUST_BE_SECOND", URL_MUST_BE_SECOND);
    ("DUPLICATE_HTTP_KEYWORD", DUPLICATE_HTTP_KEYWORD);
    ("DUPLICATE_URL_KEYWORD", DUPLICATE_URL_KEYWORD);
    ("INVALID_URL_FORMAT", INVALID_URL_FORMAT);
    ("UNKNOWN_KEYWORD", UNKNOWN_KEYWORD);
    ("MISSING_PIPE_DELIMITER", MISSING_PIPE_DELIMITER) ].

(** [ReqlineMessages[key]]; a key that is absent reads [undefined], which
    as the message of an error is the empty text. *)
Definition get (key : string) : string :=
  match find (fun kv => String.eqb (fst kv) key) table with
  | Some kv => snd kv
  | None => EmptyString
  end.

End ReqlineMessages.

(* ===================================================================== *)
(** * The validator *)
(* ===================================================================== *)

Module ReqlineValidator.
Import JS JSON Errors.

(** The request the validator builds; [None] is [null]. *)
Record ParsedRequest := mkParsedRequest {
  method : option string;
  url : option string;
  headers : json;
  query : json;
  body : json
}.

(** The variables of [parseSegments] that its loop updates. *)
Record Scan := mkScan {
  result : ParsedRequest;
  httpFound : bool;
  urlFound : bool
}.

Definition parseJsonValue (value fieldName : string) : M json :=
  match JSON.parse value with
  | Some v => Ok v
  | None =>
      let errorKey := "INVALID_JSON_FORMAT_" ++ fieldName in
      throwAppError (ReqlineMessages.get errorKey) VALIDATIONERR
  end.

Definition validateUrl (url : string) : M unit :=
  (if String.eqb url EmptyString
   then throwAppError ReqlineMessages.INVALID_URL_FORMAT VALIDATIONERR
   else Ok tt) ;;;
  (if negb (startsWith "http://" url) && negb (startsWith "https://" url)
   then throwAppError ReqlineMessages.INVALID_URL_FORMAT VALIDATIONERR
   else Ok tt) ;;;
  let protocolEndIndex := indexOf "://" url in
  if (protocolEndIndex =? -1) || (Z.of_nat (String.length url) <=? protocolEndIndex + 3)
  then throwAppError ReqlineMessages.INVALID_URL_FORMAT VALIDATIONERR
  else Ok tt.

Definition validateHttpMethod (method : string) : M unit :=
  (if differsFromUpperCase method
   then throwAppError ReqlineMessages.HTTP_METHOD_MUST_BE_UPPERCASE VALIDATIONERR
   else Ok tt) ;;;
  if negb (arrayIncludes method ["GET"; "POST"])
  then throwAppError ReqlineMessages.INVALID_HTTP_METHOD VALIDATIONERR
  else Ok tt.

Definition parseSegmentParts (segment : string) : M (string * string) :=
  let spaceIndex := indexOf " " segment in
  (if spaceIndex =? -1
   then throwAppError ReqlineMessages.MISSING_SPACE_AFTER_KEYWORD VALIDATIONERR
   else Ok tt) ;;;
  let keyword := substring segment 0 spaceIndex in
  let value := substringFrom segment (spaceIndex + 1) in
  (if differsFromUpperCase keyword
   then throwAppError ReqlineMessages.KEYWORDS_MUST_BE_UPPERCASE VALIDATIONERR
   else Ok tt) ;;;
  (if negb (indexOf "  " segment =? -1)
   then throwAppError ReqlineMessages.MULTIPLE_SPACES_FOUND VALIDATIONERR
   else Ok tt) ;;;
  Ok (keyword, value).

Definition setMethod (r : ParsedRequest) (v : string) : ParsedRequest :=
  mkParsedRequest (Some v) (url r) (headers r) (query r) (body r).
Definition setUrl (r : ParsedRequest) (v : string) : ParsedRequest :=
  mkParsedRequest (method r) (Some v) (headers r) (query r) (body r).
Definition setHeaders (r : ParsedRequest) (v : json) : ParsedRequest :=
  mkParsedRequest (method r) (url r) v (query r) (body r).
Definition setQuery (r : ParsedRequest) (v : json) : ParsedRequest :=
  mkParsedRequest (method r) (url r) (headers r) v (body r).
Definition setBody (r : ParsedRequest) (v : json) : ParsedRequest :=
  mkParsedRequest (method r) (url r) (headers r) (query r) v.

(** The callback of the loop of [parseSegments]. *)
Definition parseSegment (st : Scan) (segment : string) (index : nat) : M Scan :=
  (if String.eqb segment EmptyString
   then throwAppError ReqlineMessages.INVALID_SPACING_AROUND_PIPE VALIDATIONERR
   else Ok tt) ;;;
  parts <- parseSegmentParts segment ;;
  let keyword := fst parts in
  let value := snd parts in
  if String.eqb keyword "HTTP" then
    (if httpFound st
     then throwAppError ReqlineMessages.DUPLICATE_HTTP_KEYWORD VALIDATIONERR
     else Ok tt) ;;;
    (if negb (index =? 0)%nat
     then throwAppError ReqlineMessages.HTTP_MUST_BE_FIRST VALIDATIONERR
     else Ok tt) ;;;
    validateHttpMethod value ;;;
    Ok (mkScan (setMethod (result st) value) true (urlFound st))
  else if String.eqb keyword "URL" then
    (if urlFound st
     then throwAppError ReqlineMessages.DUPLICATE_URL_KEYWORD VALIDATIONERR
     else Ok tt) ;;;
    (if negb (index =? 1)%nat
     then throwAppError ReqlineMessages.URL_MUST_BE_SECOND VALIDATIONERR
     else Ok tt) ;;;
    validateUrl value ;;;
    Ok (mkScan (setUrl (result st) value) (httpFound st) true)
  else if String.eqb keyword "HEADERS" then
    v <- parseJsonValue value "HEADERS" ;;
    Ok (mkScan (setHeaders (result st) v) (httpFound st) (urlFound st))
  else if String.eqb keyword "QUERY" then
    v <- parseJsonValue value "QUERY" ;;
    Ok (mkScan (setQuery (result st) v) (httpFound st) (urlFound st))
  else if String.eqb keyword "BODY" then
    v <- parseJsonValue value "BODY" ;;
    Ok (mkScan (setBody (result st) v) (httpFound st) (urlFound st))
  else throwAppError ReqlineMessages.UNKNOWN_KEYWORD VALIDATIONERR.

Definition initialScan : Scan :=
  mkScan (mkParsedRequest None None (JObj []) (JObj []) (JObj [])) false false.

(** The loop of [parseSegments], without the checks that follow it. *)
Definition scanSegments (segments : list string) : M Scan :=
  forEach parseSegment segments 0%nat initialScan.

Definition parseSegments (segments : list string) : M ParsedRequest :=
  st <- scanSegments segments ;;
  (if negb (httpFound st)
   then throwAppError ReqlineMessages.MISSING_HTTP_KEYWORD VALIDATIONERR
   else Ok tt) ;;;
  (if negb (urlFound st)
   then throwAppError ReqlineMessages.MISSING_URL_KEYWORD VALIDATIONERR
   else Ok tt) ;;;
  Ok (result st).

(** The callback of the loop of [splitByPipe]; [count] is
    [segments.length]. *)
Definition checkSpacing (count : nat) (_ : unit) (segment : string) (index : nat) : M unit :=
  (if (0 <? index)%nat && negb (startsWith " " segment)
   then throwAppError ReqlineMessages.INVALID_SPACING_AROUND_PIPE VALIDATIONERR
   else Ok tt) ;;;
  if (index <? count - 1)%nat && negb (endsWith " " segment)
  then throwAppError ReqlineMessages.INVALID_SPACING_AROUND_PIPE VALIDATIONERR
  else Ok tt.

Definition splitByPipe (str : string) : M (list string) :=
  if negb (includes "|" str) then
    let words := split " " str in
    let hasHttpKeyword := arrayIncludes "HTTP" words || arrayIncludes "http" words in
    let hasUrlKeyword := arrayIncludes "URL" words || arrayIncludes "url" words in
    (if negb hasHttpKeyword
     then throwAppError ReqlineMessages.MISSING_HTTP_KEYWORD VALIDATIONERR
     else Ok tt) ;;;
    (if negb hasUrlKeyword
     then throwAppError ReqlineMessages.MISSING_URL_KEYWORD VALIDATIONERR
     else Ok tt) ;;;
    throwAppError ReqlineMessages.MISSING_PIPE_DELIMITER VALIDATIONERR
  else
    let segments := split "|" str in
    forEach (checkSpacing (List.length segments)) segments 0%nat tt ;;;
    Ok (map trim segments).

Definition parseReqlineSyntax (reqlineString : string) : M ParsedRequest :=
  let cleaned := trim reqlineString in
  (if String.eqb cleaned EmptyString
   then throwAppError ReqlineMessages.EMPTY_REQLINE VALIDATIONERR
   else Ok tt) ;;;
  segments <- splitByPipe cleaned ;;
  parsedRequest <- parseSegments segments ;;
  Ok parsedRequest.

End ReqlineValidator.

(* ===================================================================== *)
(** * The executor *)
(* ===================================================================== *)

Module ReqlineExecutor.
Import JS JSON Errors.
Import ReqlineValidator.

(** The errors the engine itself raises in this code. *)
Inductive NativeKind :=
| URIMalformed            (* [encodeURIComponent] on a lone surrogate *)
| NullToObject            (* [Object.keys(null)] *)
| PropertyOfNull          (* [baseUrl.includes] on [null] *)
| PropertyOfUndefined.    (* [response.statusCode] on [undefined] *)

(** What is left to the JavaScript engine: whether the binary64 value of
    a number literal is zero, the text of that value, and the messages of
    its own errors. *)
Record Engine := mkEngine {
  literalIsZero : string -> bool;
  literalToString : string -> ustring;
  nativeMessage : NativeKind -> string
}.

(** The second argument of [HttpRequest.get] and the third of
    [HttpRequest.post]. *)
Record RequestConfig := mkRequestConfig {
  config_headers : json;
  timeout : Z
}.

(** How a call of the HTTP client settles. *)
Inductive Outcome :=
| Resolved (response : HttpResponse)
| Rejected (message : string) (response : option HttpResponse).

(** What surrounds one call of [executeRequest]: the HTTP client
    ([@app-core/http-request], not part of the sources) and the clock;
    [Date_now n] is the value of the [n]-th call of [Date.now()]. *)
Record World := mkWorld {
  HttpRequest_get : option string -> RequestConfig -> Outcome;
  HttpRequest_post : option string -> json -> RequestConfig -> Outcome;
  Date_now : nat -> Z
}.

Record RequestInfo := mkRequestInfo {
  request_query : json;
  request_body : json;
  request_headers : json;
  full_url : option string
}.

Record ResponseInfo := mkResponseInfo {
  http_status : option Z;
  duration : Z;
  request_start_timestamp : Z;
  request_stop_timestamp : Z;
  response_data : option json
}.

Record ExecutionResult := mkExecutionResult {
  request : RequestInfo;
  response : ResponseInfo
}.

(** [await] of a call of the HTTP client. *)
Definition await (o : Outcome) : M HttpResponse :=
  match o with
  | Resolved r => Ok r
  | Rejected m r => Throw (HttpError m r)
  end.

Definition decimal (n : Z) : string :=
  DecimalString.NilZero.string_of_int (Z.to_int n).

(** The ten digits and the punctuation that [encodeURIComponent] leaves
    as they are: letters, digits and [- _ . ! ~ * ' ( )]. *)
Definition isUnreserved (c : N) : bool :=
  (((65 <=? c) && (c <=? 90)) || ((97 <=? c) && (c <=? 122))
   || ((48 <=? c) && (c <=? 57))
   || existsb (N.eqb c) [45; 95; 46; 33; 126; 42; 39; 40; 41])%N.

Definition hexDigit (d : N) : ascii :=
  (if d <? 10 then ascii_of_N (48 + d) else ascii_of_N (55 + d))%N.

(** One octet as [%XX]. *)
Definition percent (b : N) : string :=
  String "%" (String (hexDigit (b / 16)) (String (hexDigit (b mod 16)) EmptyString)).

(** The octets of the UTF-8 form of a code point. *)
Definition utf8 (cp : N) : list N :=
  (if cp <? 128 then [cp]
   else if cp <? 2048 then [192 + cp / 64; 128 + cp mod 64]
   else if cp <? 65536 then [224 + cp / 4096; 128 + (cp / 64) mod 64; 128 + cp mod 64]
   else [240 + cp / 262144; 128 + (cp / 4096) mod 64; 128 + (cp / 64) mod 64;
         128 + cp mod 64])%N.

Definition percentAll (bs : list N) : string :=
  fold_right (fun b acc => percent b ++ acc) EmptyString bs.

Definition isHighSurrogate (c : N) : bool := ((55296 <=? c) && (c <=? 56319))%N.
Definition isLowSurrogate (c : N) : bool := ((56320 <=? c) && (c <=? 57343))%N.

Section WithEngine.
Variable engine : Engine.

Definition nativeError {A : Type} (k : NativeKind) : M A :=
  Throw (NativeError (nativeMessage engine k)).

(** [ToBoolean] *)
Definition truthy (v : json) : bool :=
  match v with
  | JNull => false
  | JBool b => b
  | JNum (Int z) => negb (z =? 0)
  | JNum (Dec lit) => negb (literalIsZero engine lit)
  | JStr s => negb (ustring_eqb s [])
  | JArr _ | JObj _ => true
  end.

(** [ToBoolean] of a status that may be [undefined] *)
Definition truthyStatus (v : option Z) : bool :=
  match v with
  | Some z => negb (z =? 0)
  | None => false
  end.

(** [Number::toString] *)
Definition numberToString (n : number) : ustring :=
  match n with
  | Int z => code_units (decimal z)
  | Dec lit => literalToString engine lit
  end.

(** [ToString]; an array is its elements joined by a comma, [null]
    elements being empty. *)
Fixpoint toString (v : json) : ustring :=
  match v with
  | JNull => code_units "null"
  | JBool true => code_units "true"
  | JBool false => code_units "false"
  | JNum n => numberToString n
  | JStr s => s
  | JArr elems =>
      (fix join (l : list json) : ustring :=
         match l with
         | [] => []
         | x :: r =>
             let sx := match x with JNull => [] | _ => toString x end in
             match r with
             | [] => sx
             | _ => (sx ++ 44%N :: join r)%list
             end
         end) elems
  | JObj _ => code_units "[object Object]"
  end.

(** [encodeURIComponent] of a string. *)
Fixpoint encodeURIComponentString (s : ustring) : M string :=
  match s with
  | [] => Ok EmptyString
  | c :: r =>
      if isUnreserved c then
        rest <- encodeURIComponentString r ;; Ok (String (ascii_of_N c) rest)
      else if isLowSurrogate c then nativeError URIMalformed
      else if isHighSurrogate c then
        match r with
        | c2 :: r' =>
            if isLowSurrogate c2 then
              let cp := ((c - 55296) * 1024 + (c2 - 56320) + 65536)%N in
              rest <- encodeURIComponentString r' ;; Ok (percentAll (utf8 cp) ++ rest)
            else nativeError URIMalformed
        | [] => nativeError URIMalformed
        end
      else
        rest <- encodeURIComponentString r ;; Ok (percentAll (utf8 c) ++ rest)
  end.

(** [encodeURIComponent(v)] *)
Definition encodeURIComponent (v : json) : M string :=
  encodeURIComponentString (toString v).

(** The key of an array index: the decimal text, without a leading
    zero, of an integer below 2^32 - 1. *)
Definition arrayIndex (k : ustring) : option N :=
  match k with
  | [] => None
  | [48%N] => Some 0%N
  | c :: _ =>
      if (c =? 48)%N then None
      else
        let fix value (acc : N) (l : ustring) : option N :=
          match l with
          | [] => Some acc
          | d :: l' =>
              if ((48 <=? d) && (d <=? 57))%N then value (10 * acc + (d - 48))%N l'
              else None
          end in
        match value 0%N k with
        | Some n => if (n <? 4294967295)%N then Some n else None
        | None => None
        end
  end.

Fixpoint insertByIndex (n : N) (kv : ustring * json) (l : list (N * (ustring * json)))
  : list (N * (ustring * json)) :=
  match l with
  | [] => [(n, kv)]
  | (m, kv') :: l' =>
      if (n <? m)%N then (n, kv) :: l else (m, kv') :: insertByIndex n kv l'
  end.

Fixpoint indexProperties (o : object) : list (N * (ustring * json)) :=
  match o with
  | [] => []
  | (k, v) :: o' =>
      match arrayIndex k with
      | Some n => insertByIndex n (k, v) (indexProperties o')
      | None => indexProperties o'
      end
  end.

Definition isNamed (kv : ustring * json) : bool :=
  match arrayIndex (fst kv) with
  | Some _ => false
  | None => true
  end.

(** The own properties of an object in the order of enumeration: array
    indices by value, then the other keys in creation order. *)
Definition ownProperties (o : object) : list (ustring * json) :=
  (map snd (indexProperties o) ++ filter isNamed o)%list.

Fixpoint indexed {A : Type} (f : A -> json) (l : list A) (i : nat) : list (ustring * json) :=
  match l with
  | [] => []
  | x :: l' => (code_units (decimal (Z.of_nat i)), f x) :: indexed f l' (S i)
  end.

(** [Object.entries(v)]: the properties of an object, the elements of
    an array and the code units of a string under their indices,
    nothing for a number or a boolean; [null] throws. *)
Definition Object_entries (v : json) : M (list (ustring * json)) :=
  match v with
  | JNull => nativeError NullToObject
  | JBool _ | JNum _ => Ok []
  | JStr s => Ok (indexed (fun c => JStr [c]) s 0%nat)
  | JArr elems => Ok (indexed (fun x => x) elems 0%nat)
  | JObj o => Ok (ownProperties o)
  end.

(** [Object.keys(v)] *)
Definition Object_keys (v : json) : M (list ustring) :=
  es <- Object_entries v ;; Ok (map fst es).

(** [array.map(f)] for a callback that may throw. *)
Fixpoint mapM {A B : Type} (f : A -> M B) (l : list A) : M (list B) :=
  match l with
  | [] => Ok []
  | x :: l' => y <- f x ;; ys <- mapM f l' ;; Ok (y :: ys)
  end.

(** [array.join(sep)] on an array of strings. *)
Definition join (sep : string) (l : list string) : string := String.concat sep l.

Definition encodePair (kv : ustring * json) : M string :=
  k <- encodeURIComponentString (fst kv) ;;
  v <- encodeURIComponent (snd kv) ;;
  Ok (k ++ "=" ++ v).

(** [buildFullUrl(baseUrl, queryParams)]; [baseUrl] is a string or
    [null], as the field [url] of a request is. *)
Definition buildFullUrl (baseUrl : option string) (queryParams : json)
  : M (option string) :=
  empty <- (if negb (truthy queryParams) then Ok true
            else keys <- Object_keys queryParams ;; Ok (List.length keys =? 0)%nat) ;;
  if (empty : bool) then Ok baseUrl
  else
    entries <- Object_entries queryParams ;;
    pairs <- mapM encodePair entries ;;
    let queryString := join "&" pairs in
    match baseUrl with
    | None => nativeError PropertyOfNull
    | Some base =>
        let separator := if includes "?" base then "&" else "?" in
        Ok (Some (base ++ separator ++ queryString))
    end.

(** [a || b] on two statuses *)
Definition orStatus (a b : option Z) : option Z :=
  if truthyStatus a then a else b.

(** [error.response.data || null] *)
Definition orNull (d : option json) : json :=
  match d with
  | Some v => if truthy v then v else JNull
  | None => JNull
  end.

Definition isMethod (name : string) (m : option string) : bool :=
  match m with
  | Some s => String.eqb s name
  | None => false
  end.

(** The [try] block up to the end of the call of the HTTP client: the
    full URL and the response, [None] when no call was made. *)
Definition dispatch (w : World) (parsedRequest : ParsedRequest)
  : M (option string * option HttpResponse) :=
  fullUrl <- buildFullUrl (url parsedRequest) (query parsedRequest) ;;
  let requestConfig := mkRequestConfig (headers parsedRequest) 10000 in
  if isMethod "GET" (method parsedRequest) then
    response <- await (HttpRequest_get w fullUrl requestConfig) ;;
    Ok (fullUrl, Some response)
  else if isMethod "POST" (method parsedRequest) then
    response <- await (HttpRequest_post w fullUrl (body parsedRequest) requestConfig) ;;
    Ok (fullUrl, Some response)
  else Ok (fullUrl, None).

(** The [catch] block; [reads] is the number of calls of [Date.now()]
    made before it. *)
Definition catchBlock (w : World) (startTimestamp : Z) (parsedRequest : ParsedRequest)
  (error : Exception) (reads : nat) : M ExecutionResult :=
  let stopTimestamp := Date_now w reads in
  let duration := stopTimestamp - startTimestamp in
  match Errors.response error with
  | Some errorResponse =>
      fullUrl <- buildFullUrl (url parsedRequest) (query parsedRequest) ;;
      Ok (mkExecutionResult
            (mkRequestInfo (query parsedRequest) (body parsedRequest)
               (headers parsedRequest) fullUrl)
            (mkResponseInfo
               (orStatus (statusCode errorResponse) (status errorResponse))
               duration startTimestamp stopTimestamp
               (Some (orNull (data errorResponse)))))
  | None =>
      throwAppError ("Request execution failed: " ++ Errors.message error) APPERR
  end.

Definition executeRequest (w : World) (parsedRequest : ParsedRequest) : M ExecutionResult :=
  let startTimestamp := Date_now w 0 in
  match dispatch w parsedRequest with
  | Throw error => catchBlock w startTimestamp parsedRequest error 1
  | Ok (fullUrl, response) =>
      let stopTimestamp := Date_now w 1 in
      let duration := stopTimestamp - startTimestamp in
      match response with
      | None =>
          catchBlock w startTimestamp parsedRequest
            (NativeError (nativeMessage engine PropertyOfUndefined)) 2
      | Some response =>
          Ok (mkExecutionResult
                (mkRequestInfo (query parsedRequest) (body parsedRequest)
                   (headers parsedRequest) fullUrl)
                (mkResponseInfo
                   (orStatus (orStatus (statusCode response) (status response)) (Some 200))
                   duration startTimestamp stopTimestamp (data response)))
      end
  end.

End WithEngine.

End ReqlineExecutor.

(* ===================================================================== *)
(** * The orchestrator *)
(* ===================================================================== *)

Module ReqlineParser.
Import Errors ReqlineValidator ReqlineExecutor.

(** The data that the schema [root{ reqline is a required string }] lets
    through: its field [reqline] is a string. *)
Record Data := mkData {
  reqline : string
}.

Section WithSchemaValidator.

(** The body of the request, as it arrives. *)
Variable RequestData : Type.

(** [validator.validate(requestData, parsedSpec)] of [@app-core/validator],
    which is not part of the sources, for the schema above: the validated
    data, or the error it throws. *)
Variable validate : RequestData -> M Data.

Variable engine : Engine.

Definition parseAndExecute (w : World) (requestData : RequestData) : M ExecutionResult :=
  data <- validate requestData ;;
  parsedRequest <- parseReqlineSyntax (reqline data) ;;
  result <- executeRequest engine w parsedRequest ;;
  Ok result.

End WithSchemaValidator.

End ReqlineParser.

(* ===================================================================== *)
(** * The endpoint *)
(* ===================================================================== *)

Module ReqlineEndpoint.
Import Errors ReqlineExecutor.

(** [helpers.http_statuses], of [@app-core/server]: the two statuses that
    the handler reads. *)
Record Helpers := mkHelpers {
  http_statuses_OK : Z;
  http_statuses_BAD_REQUEST : Z
}.

(** The [data] of what the handler returns: the result of the execution,
    or the object [{ error, message }]. *)
Inductive ResponseData :=
| ResultData (result : ExecutionResult)
| ErrorData (error : bool) (message : string).

Record HandlerResult := mkHandlerResult {
  status : Z;
  data : ResponseData
}.

Section WithService.

Variable RequestData : Type.

(** [parseReqlineService.parseAndExecute], once the world of the call is
    fixed. *)
Variable parseAndExecute : RequestData -> M ExecutionResult.

(** The [handler] of the endpoint; [body] is [rc.body]. *)
Definition handler (body : RequestData) (helpers : Helpers) : HandlerResult :=
  match parseAndExecute body with
  | Ok result => mkHandlerResult (http_statuses_OK helpers) (ResultData result)
  | Throw error =>
      mkHandlerResult (http_statuses_BAD_REQUEST helpers)
        (ErrorData true (Errors.message error))
  end.

End WithService.

End ReqlineEndpoint.

(* ===================================================================== *)
(** * The vocabulary of the properties *)
(* ===================================================================== *)

Import Errors JS JSON ReqlineValidator ReqlineExecutor.

(** A concrete engine, for the statements that are evaluated. *)
Definition sampleEngine : Engine :=
  mkEngine (fun _ => false) (fun lit => JS.code_units lit) (fun _ => "native error").

(** The position of the first [c] in [s]. *)
Fixpoint firstIndex (c : ascii) (s : string) : option nat :=
  match s with
  | EmptyString => None
  | String d r =>
      if Ascii.eqb d c then Some O
      else match firstIndex c r with
           | Some n => Some (S n)
           | None => None
           end
  end.

(** The double quote, and a text between double quotes. *)
Definition quote : string := String "034" EmptyString.

Definition quoted (s : string) : string := quote ++ s ++ quote.

(** The pieces of [s] between the code units that [sep] selects. *)
Fixpoint piecesBy (sep : ascii -> bool) (s : string) : list string :=
  match s with
  | EmptyString => [EmptyString]
  | String c r =>
      if sep c then EmptyString :: piecesBy sep r
      else match piecesBy sep r with
           | [] => [String c EmptyString]
           | w :: ws => String c w :: ws
           end
  end.

(** [word] occurs in [s] as a word delimited by white space. *)
Definition hasWord (word s : string) : bool :=
  arrayIncludes word (piecesBy isWhiteSpace s).

(** [s] holds the code unit [c]. *)
Definition holds (c : ascii) (s : string) : Prop :=
  In c (list_ascii_of_string s).

(** A segment of keyword [keyword]: the keyword, a space, and the rest. *)
Definition segmentOf (keyword segment : string) : bool :=
  startsWith (keyword ++ " ") segment.

(** Some segment of keyword HTTP is not the first one, or some segment of
    keyword URL is not the second one. *)
Definition misplaced (segments : list string) : Prop :=
  exists i segment,
    nth_error segments i = Some segment
    /\ ((segmentOf "HTTP" segment = true /\ i <> 0%nat)
        \/ (segmentOf "URL" segment = true /\ i <> 1%nat)).

(** The request of the round trip of the specification. *)
Definition roundtripReqline : string :=
  "HTTP GET | URL https://example.com | QUERY {" ++ quoted "a" ++ ":1}".

Definition roundtripRequest : ParsedRequest :=
  mkParsedRequest (Some "GET") (Some "https://example.com")
    (JObj []) (JObj [(u "a", JNum (Int 1))]) (JObj []).

(** The query [{a: 1}]. *)
Definition queryA1 : json := JObj [(u "a", JNum (Int 1))].

(** The outcome of the call of the HTTP client that [executeRequest] makes
    for a request, once its full URL is built; [None] when the method is
    neither GET nor POST and no call is made. *)
Definition callOutcome (w : World) (parsedRequest : ParsedRequest) (fullUrl : option string)
  : option Outcome :=
  let requestConfig := mkRequestConfig (headers parsedRequest) 10000 in
  if isMethod "GET" (method parsedRequest)
  then Some (HttpRequest_get w fullUrl requestConfig)
  else if isMethod "POST" (method parsedRequest)
       then Some (HttpRequest_post w fullUrl (body parsedRequest) requestConfig)
       else None.


(** The clock of the world does not run backwards and starts at or after
    the epoch. *)
Definition clockRunsForward (w : World) : Prop :=
  0 <= Date_now w 0 /\ forall i j : nat, (i <= j)%nat -> Date_now w i <= Date_now w j.

(** A world whose HTTP client answers every call with [reply] and whose
    clock advances by [step] at each reading from [start]. *)
Definition constantWorld (reply : Outcome) (start step : Z) : World :=
  mkWorld (fun _ _ => reply) (fun _ _ _ => reply) (fun n => start + step * Z.of_nat n).





(** The first piece gets one more code unit in front. *)
Definition consHead (c : ascii) (l : list string) : list string :=
  match l with
  | [] => [String c EmptyString]
  | w :: ws => String c w :: ws
  end.

(** No code unit of [w] is selected by [sep]. *)
Definition avoids (sep : ascii -> bool) (w : string) : bool :=
  forallb (fun c => negb (sep c)) (list_ascii_of_string w).


(** The fields that are set once their keyword was seen. *)
Definition fieldsSet (st : Scan) : Prop :=
  (httpFound st = true -> exists m, method (result st) = Some m)
  /\ (urlFound st = true -> exists v, url (result st) = Some v).

(** A guard [if b then throwAppError ... else Ok tt] in front of a
    computation: split on [b]. *)
Ltac split_guard :=
  match goal with
  | |- context [Errors.bind (if ?b then _ else _) _] =>
      let E := fresh "G" in destruct b eqn:E; cbn [Errors.bind throwAppError]
  | H : context [Errors.bind (if ?b then _ else _) _] |- _ =>
      let E := fresh "G" in destruct b eqn:E; cbn [Errors.bind throwAppError] in H
  end.

(** A URL that [validateUrl] lets through: [http://] or [https://] and at
    least one more code unit. *)
Definition wellFormedUrl (url : string) : Prop :=
  exists rest, rest <> "" /\ (url = "http://" ++ rest \/ url = "https://" ++ rest).

(** Every code unit of [s] is white space. *)
Definition allWhiteSpace (s : string) : bool :=
  forallb isWhiteSpace (list_ascii_of_string s).

(** The number of code units of [s] that are [c]. *)
Fixpoint occurrences (c : ascii) (s : string) : nat :=
  match s with
  | EmptyString => O
  | String d r => if Ascii.eqb d c then S (occurrences c r) else occurrences c r
  end.

(** [msg] is one of the messages of the table. *)
Definition inTable (msg : string) : bool :=
  existsb (fun kv => String.eqb (snd kv) msg) ReqlineMessages.table.

(** A computation that, when it throws, throws a validation error whose
    message is in the table. *)
Definition tableOnly {A : Type} (c : M A) : Prop :=
  forall e, c = Throw e -> exists msg, inTable msg = true /\ e = AppError msg VALIDATIONERR.

(** The method and the URL of a request, when set, are ones that
    [validateHttpMethod] and [validateUrl] let through. *)
Definition checkedFields (st : Scan) : Prop :=
  (forall m, method (result st) = Some m -> validateHttpMethod m = Ok tt)
  /\ (forall v, url (result st) = Some v -> validateUrl v = Ok tt).

(** The keywords of the language. *)
Definition keywords : list string := ["HTTP"; "URL"; "HEADERS"; "QUERY"; "BODY"].

(** A schema validator that lets every body through, the body being the
    reqline. *)
Definition acceptAll (body : string) : M ReqlineParser.Data :=
  Ok (ReqlineParser.mkData body).

(** The statuses 200 and 400. *)
Definition sampleHelpers : ReqlineEndpoint.Helpers :=
  ReqlineEndpoint.mkHelpers 200 400.

(** Every pipe of [str] has a space right before it and a space right
    after it. *)
Definition pipesSpaced (str : string) : Prop :=
  forall a b, str = a ++ String "|" b ->
              (exists a', a = a' ++ " ") /\ (exists b', b = String " " b').

(** What [checkSpacing] refuses: a piece that is not the first and does not
    start with a space, or is not the last and does not end with one. *)
Definition badSpacing (count index : nat) (piece : string) : bool :=
  ((0 <? index)%nat && negb (startsWith " " piece))
  || ((index <? count - 1)%nat && negb (endsWith " " piece)).

(** A computation that, when it throws, throws an error of the engine. *)
Definition nativeOnly (engine : Engine) {A : Type} (c : M A) : Prop :=
  forall e, c = Throw e -> exists k, e = NativeError (nativeMessage engine k).

(** An execution failure, as [executeRequest] throws it. *)
Definition isExecutionFailure (e : Exception) : Prop :=
  exists m, e = AppError ("Request execution failed: " ++ m) APPERR.

(* ===================================================================== *)
(** * Facts about the string built-ins *)
(* ===================================================================== *)

Section StringFacts.

Lemma append_empty_r (s : string) : s ++ "" = s.
Proof. induction s as [|c r IH]; simpl; [reflexivity | now rewrite IH]. Qed.

Lemma append_assoc (a b c : string) : (a ++ b) ++ c = a ++ b ++ c.
Proof. induction a as [|x r IH]; simpl; [reflexivity | now rewrite IH]. Qed.

Lemma take_drop (n : nat) (s : string) : take n s ++ drop n s = s.
Proof.
  revert s; induction n as [|n IH]; intros [|c r]; simpl; try reflexivity.
  now rewrite IH.
Qed.

Lemma take_all (s : string) : take (String.length s) s = s.
Proof. induction s as [|c r IH]; simpl; [reflexivity | now rewrite IH]. Qed.

Lemma drop_length (n : nat) (s : string) :
  String.length (drop n s) = (String.length s - n)%nat.
Proof.
  revert s; induction n as [|n IH]; intros [|c r]; simpl; auto.
Qed.

Lemma length_zero (s : string) : String.length s = O -> s = "".
Proof. destruct s; simpl; [reflexivity | discriminate]. Qed.

Lemma prefix_char (c : ascii) (s : string) :
  prefix (String c "") s =
  match s with
  | EmptyString => false
  | String d _ => Ascii.eqb d c
  end.
Proof.
  destruct s as [|d r]; simpl; [reflexivity|].
  destruct (ascii_dec c d) as [->|Hne].
  - rewrite Ascii.eqb_refl. now destruct r.
  - symmetry; apply Ascii.eqb_neq; congruence.
Qed.

(** [indexOf] of one code unit is the position of its first occurrence. *)
Lemma indexOf_char (c : ascii) (s : string) :
  indexOf (String c "") s =
  match firstIndex c s with
  | Some n => Z.of_nat n
  | None => -1
  end.
Proof.
  induction s as [|d r IH].
  - reflexivity.
  - cbn [indexOf firstIndex]. rewrite prefix_char.
    destruct (Ascii.eqb d c); [reflexivity|].
    rewrite IH. destruct (firstIndex c r) as [n|].
    + destruct (Z.eqb_spec (Z.of_nat n) (-1)); lia.
    + reflexivity.
Qed.

Lemma firstIndex_split (c : ascii) (s : string) (n : nat) :
  firstIndex c s = Some n ->
  s = take n s ++ String c (drop (S n) s) /\ firstIndex c (take n s) = None
  /\ (n < String.length s)%nat.
Proof.
  revert n; induction s as [|d r IH]; intros n; simpl; [discriminate|].
  destruct (Ascii.eqb_spec d c) as [->|Hne].
  - intros [= <-]. simpl. repeat split; lia.
  - destruct (firstIndex c r) as [m|] eqn:E; [|discriminate].
    intros [= <-]. destruct (IH m eq_refl) as (H1 & H2 & H3).
    cbn [take drop append firstIndex]. rewrite H2.
    destruct (Ascii.eqb_spec d c); [contradiction|].
    repeat split; [ f_equal; exact H1 | lia].
Qed.

Lemma firstIndex_append (c : ascii) (a b : string) :
  firstIndex c a = None ->
  firstIndex c (a ++ String c b) = Some (String.length a).
Proof.
  induction a as [|d r IH]; simpl.
  - now rewrite Ascii.eqb_refl.
  - destruct (Ascii.eqb d c); [discriminate|].
    destruct (firstIndex c r); [discriminate|].
    intros _. now rewrite IH.
Qed.

Lemma take_append (a b : string) : take (String.length a) (a ++ b) = a.
Proof. induction a as [|d r IH]; simpl; [now destruct b | now rewrite IH]. Qed.

Lemma drop_append (a b : string) : drop (String.length a) (a ++ b) = b.
Proof. induction a as [|d r IH]; simpl; [reflexivity | exact IH]. Qed.

Lemma length_append (a b : string) :
  String.length (a ++ b) = (String.length a + String.length b)%nat.
Proof. induction a as [|d r IH]; simpl; [reflexivity | now rewrite IH]. Qed.

(** [substring(0, n)] and [substring(n)] within the bounds of the string. *)
Lemma substring_prefix (s : string) (n : nat) :
  (n <= String.length s)%nat -> substring s 0 (Z.of_nat n) = take n s.
Proof.
  intros H. unfold substring, clamp.
  replace (Z.min (Z.max 0 0) (Z.of_nat (String.length s))) with 0 by lia.
  replace (Z.min (Z.max (Z.of_nat n) 0) (Z.of_nat (String.length s))) with (Z.of_nat n) by lia.
  replace (Z.min 0 (Z.of_nat n)) with 0 by lia.
  replace (Z.max 0 (Z.of_nat n)) with (Z.of_nat n) by lia.
  rewrite Z.sub_0_r, Nat2Z.id. reflexivity.
Qed.

Lemma take_ge (n : nat) (s : string) : (String.length s <= n)%nat -> take n s = s.
Proof.
  revert s; induction n as [|n IH]; intros [|c r]; simpl; intros H;
    try reflexivity; try lia.
  rewrite IH; [reflexivity | lia].
Qed.

Lemma substringFrom_suffix (s : string) (n : nat) :
  (n <= String.length s)%nat -> substringFrom s (Z.of_nat n) = drop n s.
Proof.
  intros H. unfold substringFrom, substring, clamp.
  replace (Z.min (Z.max (Z.of_nat n) 0) (Z.of_nat (String.length s))) with (Z.of_nat n) by lia.
  replace (Z.min (Z.max (Z.of_nat (String.length s)) 0) (Z.of_nat (String.length s)))
    with (Z.of_nat (String.length s)) by lia.
  replace (Z.min (Z.of_nat n) (Z.of_nat (String.length s))) with (Z.of_nat n) by lia.
  replace (Z.max (Z.of_nat n) (Z.of_nat (String.length s)))
    with (Z.of_nat (String.length s)) by lia.
  rewrite Nat2Z.id. apply take_ge. rewrite drop_length. lia.
Qed.

(** What [trimEnd] returns does not end with white space. *)
Lemma trimEnd_last (s a : string) (c : ascii) :
  trimEnd s = a ++ String c "" -> isWhiteSpace c = false.
Proof.
  revert a; induction s as [|d r IH]; intros a; simpl.
  - destruct a; discriminate.
  - destruct (trimEnd r) as [|e r'] eqn:E.
    + destruct (isWhiteSpace d) eqn:W.
      * destruct a; discriminate.
      * destruct a as [|x a']; simpl; [intros [= <-]; exact W|].
        destruct a'; discriminate.
    + destruct a as [|x a']; simpl; [discriminate|].
      intros [= _ H]. apply (IH a'). exact H.
Qed.

Lemma trim_last (s a : string) (c : ascii) :
  trim s = a ++ String c "" -> isWhiteSpace c = false.
Proof. unfold trim. apply trimEnd_last. Qed.

End StringFacts.

(* ===================================================================== *)
(** * Facts about the validator *)
(* ===================================================================== *)

Section ValidatorFacts.

Lemma prefix_split (p s : string) :
  prefix p s = true -> s = p ++ drop (String.length p) s.
Proof.
  revert s; induction p as [|c p IH]; intros s; simpl.
  - now destruct s.
  - destruct s as [|d r]; simpl; [discriminate|].
    destruct (ascii_dec c d) as [->|]; [|discriminate].
    intros H. f_equal. now apply IH.
Qed.

(** A segment that is a keyword, one space and a value. *)
Lemma parseSegmentParts_keyword (keyword value : string) :
  firstIndex " " keyword = None ->
  parseSegmentParts (keyword ++ " " ++ value) =
  if differsFromUpperCase keyword
  then throwAppError ReqlineMessages.KEYWORDS_MUST_BE_UPPERCASE VALIDATIONERR
  else if negb (indexOf "  " (keyword ++ " " ++ value) =? -1)
       then throwAppError ReqlineMessages.MULTIPLE_SPACES_FOUND VALIDATIONERR
       else Ok (keyword, value).
Proof.
  intros Hk. unfold parseSegmentParts.
  rewrite indexOf_char. cbn [append]. rewrite (firstIndex_append _ _ _ Hk).
  destruct (Z.eqb_spec (Z.of_nat (String.length keyword)) (-1)) as [|_]; [lia|].
  cbn [Errors.bind].
  rewrite substring_prefix by (rewrite length_append; lia).
  rewrite take_append.
  replace (Z.of_nat (String.length keyword) + 1) with (Z.of_nat (S (String.length keyword))) by lia.
  rewrite substringFrom_suffix by (rewrite length_append; simpl; lia).
  change (S (String.length keyword)) with (1 + String.length keyword)%nat.
  assert (D : forall a b, drop (1 + String.length a) (a ++ String " " b) = b).
  { intros a b. induction a; simpl; auto. }
  rewrite D.
  destruct (differsFromUpperCase keyword); [reflexivity|]. cbn [Errors.bind].
  destruct (negb _); reflexivity.
Qed.

(** What a successful [parseSegmentParts] says of its segment. *)
Lemma parseSegmentParts_Ok (segment keyword value : string) :
  parseSegmentParts segment = Ok (keyword, value) ->
  exists n, firstIndex " " segment = Some n
            /\ keyword = take n segment /\ value = drop (S n) segment
            /\ segment = keyword ++ " " ++ value
            /\ firstIndex " " keyword = None
            /\ indexOf "  " segment = -1.
Proof.
  unfold parseSegmentParts. rewrite indexOf_char.
  destruct (firstIndex " " segment) as [n|] eqn:E.
  - destruct (firstIndex_split _ _ _ E) as (H1 & H2 & H3).
    destruct (Z.eqb_spec (Z.of_nat n) (-1)) as [|_]; [lia|]. cbn [Errors.bind].
    rewrite substring_prefix by lia.
    replace (Z.of_nat n + 1) with (Z.of_nat (S n)) by lia.
    rewrite substringFrom_suffix by lia.
    split_guard; [discriminate|]. split_guard; [discriminate|].
    intros [= <- <-]. exists n. repeat split; auto.
    apply negb_false_iff in G0. now apply Z.eqb_eq.
  - cbn. discriminate.
Qed.

Lemma parseSegmentParts_no_space (segment : string) :
  firstIndex " " segment = None ->
  parseSegmentParts segment =
  throwAppError ReqlineMessages.MISSING_SPACE_AFTER_KEYWORD VALIDATIONERR.
Proof.
  intros E. unfold parseSegmentParts. rewrite indexOf_char, E. reflexivity.
Qed.

Lemma splitByPipe_Ok (str : string) (segments : list string) :
  splitByPipe str = Ok segments ->
  includes "|" str = true /\ segments = map trim (split "|" str).
Proof.
  unfold splitByPipe. destruct (includes "|" str); cbn [negb].
  - destruct (forEach _ _ _ _); cbn [Errors.bind]; [|discriminate].
    intros [= <-]. auto.
  - repeat (split_guard; [discriminate|]). discriminate.
Qed.

(** The value of a trimmed segment is never empty. *)
Lemma trimmed_value_nonempty (raw keyword value : string) :
  parseSegmentParts (trim raw) = Ok (keyword, value) -> value <> "".
Proof.
  intros H. destruct (parseSegmentParts_Ok _ _ _ H) as (n & _ & _ & _ & Hs & _).
  intros ->. rewrite <- append_assoc in Hs.
  rewrite append_empty_r in Hs.
  apply trim_last in Hs. discriminate.
Qed.

End ValidatorFacts.

(* ===================================================================== *)
(** * The properties of the specification *)
(* ===================================================================== *)

(** C10.  When [validateUrl] is called from [parseSegments], its argument is
    not the empty string: the segments that [splitByPipe] returns are
    trimmed, so the value [parseSegmentParts] cuts after the first space of
    a segment has at least one code unit, and the first branch of
    [validateUrl] is not taken.  A segment with a keyword and no value has
    no space and fails before, with "Missing space after keyword". *)
Theorem validateUrl_argument_nonempty :
  forall (reqline : string) (segments : list string),
    splitByPipe (trim reqline) = Ok segments ->
    (forall segment keyword value,
        In segment segments ->
        parseSegmentParts segment = Ok (keyword, value) ->
        value <> "" /\ String.eqb value "" = false)
    /\ (forall st segment index,
           In segment segments ->
           segment <> "" ->
           firstIndex " " segment = None ->
           parseSegment st segment index =
           Throw (AppError ReqlineMessages.MISSING_SPACE_AFTER_KEYWORD VALIDATIONERR)).
Proof.
  intros reqline segments Hs. apply splitByPipe_Ok in Hs as [_ ->]. split.
  - intros segment keyword value Hin Hp.
    apply in_map_iff in Hin as (raw & <- & _).
    assert (value <> "") by (eapply trimmed_value_nonempty; eauto).
    split; [assumption | now apply String.eqb_neq].
  - intros st segment index _ Hne Hsp. unfold parseSegment.
    apply String.eqb_neq in Hne. rewrite Hne. cbn [Errors.bind].
    rewrite (parseSegmentParts_no_space _ Hsp). reflexivity.
Qed.

Lemma validateUrl_argument_nonempty_witness :
  parseSegmentParts "URL https://example.com" = Ok ("URL", "https://example.com")
  /\ "https://example.com" <> ""
  /\ parseSegment initialScan "URL" 1 =
     Throw (AppError ReqlineMessages.MISSING_SPACE_AFTER_KEYWORD VALIDATIONERR).
Proof.
  destruct (validateUrl_argument_nonempty "HTTP GET | URL https://example.com | URL"
              ["HTTP GET"; "URL https://example.com"; "URL"] eq_refl) as [A B].
  split; [reflexivity|]. split.
  - apply (A "URL https://example.com" "URL" "https://example.com").
    + simpl; auto.
    + reflexivity.
  - apply B; [simpl; auto | discriminate | reflexivity].
Defined.

(** C7.  The case of the keyword is checked before the case of the method:
    [http GET | URL https://example.com] fails with "Keywords must be
    uppercase", and so does every first segment [http <method>], whatever
    the method text (also one that [validateHttpMethod] would refuse for its
    case): the check in [parseSegmentParts] throws before
    [validateHttpMethod] is reached. *)
Theorem keyword_case_checked_before_method_case :
  parseReqlineSyntax "http GET | URL https://example.com"
  = Throw (AppError ReqlineMessages.KEYWORDS_MUST_BE_UPPERCASE VALIDATIONERR)
  /\ ReqlineMessages.KEYWORDS_MUST_BE_UPPERCASE <> ReqlineMessages.HTTP_METHOD_MUST_BE_UPPERCASE
  /\ validateHttpMethod "get"
     = Throw (AppError ReqlineMessages.HTTP_METHOD_MUST_BE_UPPERCASE VALIDATIONERR)
  /\ parseReqlineSyntax "http get | URL https://example.com"
     = Throw (AppError ReqlineMessages.KEYWORDS_MUST_BE_UPPERCASE VALIDATIONERR)
  /\ (forall (st : Scan) (method : string) (index : nat),
         parseSegment st ("http " ++ method) index
         = Throw (AppError ReqlineMessages.KEYWORDS_MUST_BE_UPPERCASE VALIDATIONERR)).
Proof.
  split; [reflexivity|]. split; [discriminate|]. split; [reflexivity|].
  split; [reflexivity|].
  intros st method index. unfold parseSegment.
  change ("http " ++ method) with ("http" ++ " " ++ method).
  rewrite parseSegmentParts_keyword by reflexivity.
  reflexivity.
Qed.

(** A HEADERS, QUERY or BODY segment whose value is a JSON text and which
    holds no run of two spaces: the scan goes on with the parsed value in
    the field, whatever kind of value it is. *)
Lemma parseSegment_json (st : Scan) (index : nat) (keyword value : string) (v : json) :
  JSON.parse value = Some v ->
  indexOf "  " (keyword ++ " " ++ value) = -1 ->
  (keyword = "HEADERS" ->
   parseSegment st (keyword ++ " " ++ value) index
   = Ok (mkScan (setHeaders (result st) v) (httpFound st) (urlFound st)))
  /\ (keyword = "QUERY" ->
      parseSegment st (keyword ++ " " ++ value) index
      = Ok (mkScan (setQuery (result st) v) (httpFound st) (urlFound st)))
  /\ (keyword = "BODY" ->
      parseSegment st (keyword ++ " " ++ value) index
      = Ok (mkScan (setBody (result st) v) (httpFound st) (urlFound st))).
Proof.
  intros Hv Hsp.
  repeat split; intros ->; unfold parseSegment;
    (rewrite parseSegmentParts_keyword by reflexivity);
    rewrite Hsp; cbn; unfold parseJsonValue; rewrite Hv; reflexivity.
Qed.

(** C9 (as amended).  For every HEADERS, QUERY or BODY segment that holds no
    run of two spaces and whose value text is any valid JSON text, of any
    kind (object, array, string, number, boolean, null), the segment is
    accepted and the parsed value goes as it is into the field of that
    keyword; nothing checks that it is an object.  So
    [HTTP GET | URL https://example.com | BODY 5] validates with the body
    5, and likewise an array, [true] and [null]. *)
Theorem json_value_of_any_kind_accepted :
  forall (st : Scan) (index : nat) (value : string) (v : json),
    JSON.parse value = Some v ->
    (indexOf "  " ("HEADERS " ++ value) = -1 ->
     parseSegment st ("HEADERS " ++ value) index
     = Ok (mkScan (setHeaders (result st) v) (httpFound st) (urlFound st)))
    /\ (indexOf "  " ("QUERY " ++ value) = -1 ->
        parseSegment st ("QUERY " ++ value) index
        = Ok (mkScan (setQuery (result st) v) (httpFound st) (urlFound st)))
    /\ (indexOf "  " ("BODY " ++ value) = -1 ->
        parseSegment st ("BODY " ++ value) index
        = Ok (mkScan (setBody (result st) v) (httpFound st) (urlFound st)))
    /\ parseReqlineSyntax "HTTP GET | URL https://example.com | BODY 5"
       = Ok (mkParsedRequest (Some "GET") (Some "https://example.com")
               (JObj []) (JObj []) (JNum (Int 5)))
    /\ parseReqlineSyntax
         "HTTP GET | URL https://example.com | HEADERS [1, true] | QUERY null | BODY false"
       = Ok (mkParsedRequest (Some "GET") (Some "https://example.com")
               (JArr [JNum (Int 1); JBool true]) JNull (JBool false)).
Proof.
  intros st index value v Hv.
  split; [|split; [|split; [|split; reflexivity]]]; intros Hsp.
  - now apply (parseSegment_json st index "HEADERS" value v Hv Hsp).
  - now apply (parseSegment_json st index "QUERY" value v Hv Hsp).
  - now apply (parseSegment_json st index "BODY" value v Hv Hsp).
Qed.

Lemma json_value_of_any_kind_accepted_witness :
  parseSegment initialScan "BODY 5" 2
  = Ok (mkScan (setBody (result initialScan) (JNum (Int 5))) false false).
Proof.
  apply (json_value_of_any_kind_accepted initialScan 2 "5" (JNum (Int 5)) eq_refl).
  reflexivity.
Defined.

(** C9, as stated, fails: the text [[1,  2]] is valid JSON (it parses to the
    array of 1 and 2), and the segment [BODY [1,  2]] is refused for its two
    spaces, with "Multiple spaces found where single space expected". *)
Lemma json_value_with_two_spaces_refused :
  JSON.parse "[1,  2]" = Some (JArr [JNum (Int 1); JNum (Int 2)])
  /\ parseReqlineSyntax "HTTP GET | URL https://example.com | BODY [1,  2]"
     = Throw (AppError ReqlineMessages.MULTIPLE_SPACES_FOUND VALIDATIONERR)
  /\ (forall st index,
         parseSegment st "BODY [1,  2]" index
         = Throw (AppError ReqlineMessages.MULTIPLE_SPACES_FOUND VALIDATIONERR)).
Proof. repeat split. Qed.

(** C1 (the code departs from the claim).  More than one space on either
    side of a pipe is accepted: [splitByPipe] only checks that a segment
    starts and ends with a space, then trims it, and [parseSegmentParts]
    looks for two spaces in the trimmed segment only. *)
Theorem two_spaces_around_pipe_accepted :
  parseReqlineSyntax "HTTP GET  |  URL https://example.com"
  = Ok (mkParsedRequest (Some "GET") (Some "https://example.com") (JObj []) (JObj []) (JObj []))
  /\ includes "|" "HTTP GET  |  URL https://example.com" = true
  /\ indexOf "  " "HTTP GET  |  URL https://example.com" = 8
  /\ parseReqlineSyntax "HTTP GET    | URL https://example.com |   BODY 5"
     = Ok (mkParsedRequest (Some "GET") (Some "https://example.com")
             (JObj []) (JObj []) (JNum (Int 5))).
Proof. repeat split. Qed.

(** C2.  [HTTP GET | URL https://example.com | QUERY {"a":1}] parses to the
    request with method GET, that URL, the query [{a: 1}] and empty headers
    and body.  Executing that request calls the HTTP client at
    [https://example.com?a=1]: every result it returns has that [full_url],
    and it throws only when the client rejects the call without a
    response. *)
Theorem roundtrip_example :
  parseReqlineSyntax roundtripReqline = Ok roundtripRequest
  /\ forall (engine : Engine) (w : World),
       buildFullUrl engine (url roundtripRequest) (query roundtripRequest)
       = Ok (Some "https://example.com?a=1")
       /\ match executeRequest engine w roundtripRequest with
          | Ok r => full_url (request r) = Some "https://example.com?a=1"
          | Throw e =>
              exists m,
                HttpRequest_get w (Some "https://example.com?a=1")
                  (mkRequestConfig (JObj []) 10000) = Rejected m None
                /\ e = AppError ("Request execution failed: " ++ m) APPERR
          end.
Proof.
  split; [reflexivity|]. intros engine w.
  assert (B : buildFullUrl engine (url roundtripRequest) (query roundtripRequest)
              = Ok (Some "https://example.com?a=1")) by reflexivity.
  split; [exact B|].
  unfold executeRequest, dispatch. rewrite B. cbn [Errors.bind].
  change (isMethod "GET" (method roundtripRequest)) with true. cbv iota.
  change (headers roundtripRequest) with (JObj []).
  destruct (HttpRequest_get w _ _) as [resp | m [resp|]]; cbn.
  - reflexivity.
  - reflexivity.
  - exists m. split; reflexivity.
Qed.

Lemma firstIndex_None (c : ascii) (s : string) :
  firstIndex c s = None <-> ~ holds c s.
Proof.
  unfold holds. induction s as [|d r IH]; simpl.
  - tauto.
  - destruct (Ascii.eqb_spec d c) as [->|Hne].
    + split; [discriminate | intros H; exfalso; apply H; now left].
    + destruct (firstIndex c r).
      * split; [discriminate|]. intros H.
        assert (N : ~ In c (list_ascii_of_string r)) by tauto.
        apply IH in N. discriminate.
      * split; [|reflexivity]. intros _ [H|H]; [congruence|]. now apply IH.
Qed.

(** [includes] of one code unit says whether the string holds it. *)
Lemma includes_char (c : ascii) (s : string) :
  includes (String c "") s = true <-> holds c s.
Proof.
  unfold includes. rewrite indexOf_char.
  destruct (firstIndex c s) as [n|] eqn:E.
  - destruct (Z.eqb_spec (Z.of_nat n) (-1)); [lia|]. split; [|reflexivity].
    intros _. destruct (in_dec ascii_dec c (list_ascii_of_string s)) as [H|H]; [exact H|].
    apply firstIndex_None in H. congruence.
  - split; [discriminate|]. intros H. apply firstIndex_None in E. contradiction.
Qed.

Lemma includes_char_false (c : ascii) (s : string) :
  includes (String c "") s = false <-> ~ holds c s.
Proof.
  rewrite <- includes_char. destruct (includes _ s); split; congruence.
Qed.











(* ===================================================================== *)
(** * The kinds of failure *)
(* ===================================================================== *)














(** Every result of [executeRequest] carries the first two readings of the
    clock and their difference. *)
Lemma executeRequest_timing (engine : Engine) (w : World) (parsedRequest : ParsedRequest)
      (r : ExecutionResult) :
  executeRequest engine w parsedRequest = Ok r ->
  request_start_timestamp (response r) = Date_now w 0
  /\ request_stop_timestamp (response r) = Date_now w 1
  /\ duration (response r) = Date_now w 1 - Date_now w 0.
Proof.
  unfold executeRequest.
  destruct (dispatch engine w parsedRequest) as [[fullUrl [resp|]]|e].
  - intros [= <-]. cbn. auto.
  - unfold catchBlock. cbn. discriminate.
  - unfold catchBlock. destruct (Errors.response e) as [er|].
    + destruct (buildFullUrl engine _ _); cbn; [|discriminate].
      intros [= <-]. cbn. auto.
    + cbn. discriminate.
Qed.

(** C8 (as amended).  In every result of [executeRequest], on the success
    path and on the remote-error path alike, [duration] is exactly
    [request_stop_timestamp - request_start_timestamp], and the two
    timestamps are the first and the second reading of [Date.now()]; the
    three are integers (values of [Z]: whole milliseconds).  The duration
    is not negative exactly when the second reading is not before the
    first; with a clock that starts at or after the epoch and does not run
    backwards the three are not negative. *)
Theorem duration_is_stop_minus_start :
  forall (engine : Engine) (w : World) (parsedRequest : ParsedRequest) (r : ExecutionResult),
    executeRequest engine w parsedRequest = Ok r ->
    duration (response r)
    = request_stop_timestamp (response r) - request_start_timestamp (response r)
    /\ request_start_timestamp (response r) = Date_now w 0
    /\ request_stop_timestamp (response r) = Date_now w 1
    /\ (0 <= duration (response r) <-> Date_now w 0 <= Date_now w 1)
    /\ (clockRunsForward w ->
        0 <= duration (response r)
        /\ 0 <= request_start_timestamp (response r)
        /\ 0 <= request_stop_timestamp (response r)).
Proof.
  intros engine w pr r H.
  destruct (executeRequest_timing _ _ _ _ H) as (-> & -> & ->).
  repeat split; try lia;
    destruct H0 as [H0 Hmono];
    pose proof (Hmono 0%nat 1%nat (Nat.le_succ_diag_r 0)); lia.
Qed.

Lemma duration_is_stop_minus_start_witness :
  duration
    (mkResponseInfo (Some 200) 7 1000 1007 None)
  = request_stop_timestamp (mkResponseInfo (Some 200) 7 1000 1007 None)
    - request_start_timestamp (mkResponseInfo (Some 200) 7 1000 1007 None)
  /\ 0 <= 7 /\ 0 <= 1000 /\ 0 <= 1007.
Proof.
  assert (C : clockRunsForward (constantWorld (Resolved (mkHttpResponse None None None)) 1000 7)).
  { split; [simpl; lia|]. intros i j Hij. cbn [Date_now constantWorld]. lia. }
  destruct (duration_is_stop_minus_start sampleEngine
              (constantWorld (Resolved (mkHttpResponse None None None)) 1000 7)
              roundtripRequest
              (mkExecutionResult
                 (mkRequestInfo queryA1 (JObj []) (JObj []) (Some "https://example.com?a=1"))
                 (mkResponseInfo (Some 200) 7 1000 1007 None))
              eq_refl) as (D & _ & _ & _ & N).
  split; [exact D | exact (N C)].
Defined.

(** C8, as stated, fails: nothing keeps the duration from being negative.
    With a clock that reads 1007 and then 1000 (the system clock was set
    back while the call was under way) the result has the duration -7. *)
Lemma backwards_clock_gives_negative_duration :
  executeRequest sampleEngine
    (constantWorld (Resolved (mkHttpResponse (Some 200) None None)) 1007 (-7))
    roundtripRequest
  = Ok (mkExecutionResult
          (mkRequestInfo queryA1 (JObj []) (JObj []) (Some "https://example.com?a=1"))
          (mkResponseInfo (Some 200) (-7) 1007 1000 None))
  /\ -7 < 0.
Proof. split; [reflexivity | lia]. Qed.

(* ===================================================================== *)
(** * Words and pieces *)
(* ===================================================================== *)

Section Pieces.

Lemma arrayIncludes_In (x : string) (l : list string) :
  arrayIncludes x l = true <-> In x l.
Proof.
  unfold arrayIncludes. rewrite existsb_exists. split.
  - intros (y & Hy & E). apply String.eqb_eq in E. now subst.
  - intros H. exists x. split; [assumption | apply String.eqb_refl].
Qed.

Lemma split_piecesBy (sep : ascii) (s : string) :
  split sep s = piecesBy (fun c => Ascii.eqb c sep) s.
Proof. induction s as [|c r IH]; simpl; [reflexivity | now rewrite IH]. Qed.

Lemma piecesBy_nonempty (sep : ascii -> bool) (s : string) : piecesBy sep s <> [].
Proof.
  induction s as [|c r IH]; simpl; [discriminate|].
  destruct (sep c); [discriminate|]. destruct (piecesBy sep r); discriminate.
Qed.

Lemma consHead_app (c : ascii) (l m : list string) :
  l <> [] -> consHead c (l ++ m)%list = (consHead c l ++ m)%list.
Proof. destruct l; [contradiction | reflexivity]. Qed.

Lemma piecesBy_cons (sep : ascii -> bool) (c : ascii) (r : string) :
  piecesBy sep (String c r) =
  if sep c then EmptyString :: piecesBy sep r else consHead c (piecesBy sep r).
Proof. reflexivity. Qed.

(** Leading white space only adds empty pieces in front. *)
Lemma piecesBy_trimStart (s : string) :
  exists k, piecesBy isWhiteSpace s
            = (repeat EmptyString k ++ piecesBy isWhiteSpace (trimStart s))%list.
Proof.
  induction s as [|c r [k IH]].
  - now exists O.
  - cbn [trimStart]. destruct (isWhiteSpace c) eqn:W.
    + exists (S k). rewrite piecesBy_cons, W, IH. reflexivity.
    + now exists O.
Qed.

(** Trailing white space only adds empty pieces at the end. *)
Lemma piecesBy_trimEnd (s : string) :
  exists k, piecesBy isWhiteSpace s
            = (piecesBy isWhiteSpace (trimEnd s) ++ repeat EmptyString k)%list.
Proof.
  induction s as [|c r [k IH]].
  - now exists O.
  - cbn [trimEnd]. rewrite piecesBy_cons. destruct (trimEnd r) as [|e r'] eqn:T.
    + destruct (isWhiteSpace c) eqn:W.
      * exists (S k). rewrite IH. reflexivity.
      * exists k. rewrite IH. cbn. now rewrite W.
    + rewrite piecesBy_cons. destruct (isWhiteSpace c) eqn:W.
      * exists k. rewrite IH. reflexivity.
      * exists k. rewrite IH. apply consHead_app, piecesBy_nonempty.
Qed.

Lemma piecesBy_trim (w s : string) :
  In w (piecesBy isWhiteSpace (trim s)) -> In w (piecesBy isWhiteSpace s).
Proof.
  intros H. unfold trim in H.
  destruct (piecesBy_trimStart s) as [k ->].
  destruct (piecesBy_trimEnd (trimStart s)) as [k' ->].
  apply in_or_app. right. apply in_or_app. now left.
Qed.

(** With more separators, a piece that holds none of them is still a
    piece. *)
Lemma piecesBy_finer (p q : ascii -> bool) :
  (forall c, p c = true -> q c = true) ->
  forall t : string,
    (avoids q (hd EmptyString (piecesBy p t)) = true ->
     hd EmptyString (piecesBy p t) = hd EmptyString (piecesBy q t))
    /\ (forall w, avoids q w = true ->
                  In w (tl (piecesBy p t)) -> In w (tl (piecesBy q t))).
Proof.
  intros Hpq. induction t as [|c r [IHh IHt]].
  - split; [reflexivity | intros w _ []].
  - rewrite !piecesBy_cons.
    pose proof (piecesBy_nonempty p r) as Np. pose proof (piecesBy_nonempty q r) as Nq.
    destruct (piecesBy p r) as [|hp tp]; [contradiction|].
    destruct (piecesBy q r) as [|hq tq]; [contradiction|].
    cbn [hd tl] in IHh, IHt.
    destruct (p c) eqn:P.
    + rewrite (Hpq c P). cbn [hd tl]. split; [reflexivity|].
      intros w Hw [<-|Hin].
      * left. symmetry. now apply IHh.
      * right. now apply IHt.
    + destruct (q c) eqn:Q; cbn [consHead hd tl].
      * split.
        -- unfold avoids. cbn. rewrite Q. discriminate.
        -- intros w Hw Hin. right. now apply IHt.
      * split.
        -- unfold avoids. cbn. rewrite Q. cbn. intros H. f_equal. now apply IHh.
        -- exact IHt.
Qed.

Lemma piecesBy_finer_In (p q : ascii -> bool) (w t : string) :
  (forall c, p c = true -> q c = true) ->
  avoids q w = true -> In w (piecesBy p t) -> In w (piecesBy q t).
Proof.
  intros Hpq Hw Hin. destruct (piecesBy_finer p q Hpq t) as [Hh Ht].
  pose proof (piecesBy_nonempty p t) as Np. pose proof (piecesBy_nonempty q t) as Nq.
  destruct (piecesBy p t) as [|hp tp]; [contradiction|].
  destruct (piecesBy q t) as [|hq tq]; [contradiction|].
  cbn [hd tl] in Hh, Ht. destruct Hin as [<-|Hin].
  - left. symmetry. now apply Hh.
  - right. now apply Ht.
Qed.

(** A word without white space that [split(' ')] finds in the trimmed text
    is a word of the text. *)
Lemma word_of_trimmed (w s : string) :
  avoids isWhiteSpace w = true ->
  arrayIncludes w (split " " (trim s)) = true -> hasWord w s = true.
Proof.
  intros Hw H. unfold hasWord. apply arrayIncludes_In. apply arrayIncludes_In in H.
  rewrite split_piecesBy in H. apply piecesBy_trim.
  apply (piecesBy_finer_In (fun c => Ascii.eqb c " ") isWhiteSpace); auto.
  intros c Hc. apply Ascii.eqb_eq in Hc. now subst.
Qed.

Lemma holds_trimStart (c : ascii) (s : string) : holds c (trimStart s) -> holds c s.
Proof.
  unfold holds. induction s as [|d r IH]; simpl; [tauto|].
  destruct (isWhiteSpace d); simpl; tauto.
Qed.

Lemma holds_trimEnd (c : ascii) (s : string) : holds c (trimEnd s) -> holds c s.
Proof.
  unfold holds. induction s as [|d r IH]; simpl; [tauto|].
  destruct (trimEnd r) as [|e r'].
  - destruct (isWhiteSpace d); simpl; tauto.
  - simpl in *. tauto.
Qed.

Lemma holds_trim (c : ascii) (s : string) : holds c (trim s) -> holds c s.
Proof. intros H. now apply holds_trimStart, holds_trimEnd. Qed.

End Pieces.

(** The branch of [splitByPipe] for a text without a pipe: without the word
    HTTP the message is "Missing required HTTP keyword". *)
Lemma missing_http_keyword_no_pipe :
  forall reqline : string,
    trim reqline <> "" ->
    ~ holds "|" reqline ->
    hasWord "HTTP" reqline = false ->
    hasWord "http" reqline = false ->
    parseReqlineSyntax reqline
    = Throw (AppError ReqlineMessages.MISSING_HTTP_KEYWORD VALIDATIONERR).
Proof.
  intros reqline Hne Hpipe Hu Hl. unfold parseReqlineSyntax.
  apply String.eqb_neq in Hne. rewrite Hne. cbn [Errors.bind].
  unfold splitByPipe.
  assert (P : includes "|" (trim reqline) = false).
  { apply includes_char_false. intros H. apply Hpipe. now apply holds_trim. }
  rewrite P. cbn [negb].
  assert (U : arrayIncludes "HTTP" (split " " (trim reqline)) = false).
  { destruct (arrayIncludes "HTTP" _) eqn:E; [|reflexivity].
    apply word_of_trimmed in E; [congruence | reflexivity]. }
  assert (L : arrayIncludes "http" (split " " (trim reqline)) = false).
  { destruct (arrayIncludes "http" _) eqn:E; [|reflexivity].
    apply word_of_trimmed in E; [congruence | reflexivity]. }
  rewrite U, L. reflexivity.
Qed.

(** C3, as stated, fails: [URL https://example.com | QUERY {}] holds neither
    HTTP nor http as a word, and validation fails with "URL keyword must be
    second"; the blank input fails with "Reqline string cannot be empty". *)
Lemma missing_http_keyword_not_with_pipe :
  hasWord "HTTP" "URL https://example.com | QUERY {}" = false
  /\ hasWord "http" "URL https://example.com | QUERY {}" = false
  /\ parseReqlineSyntax "URL https://example.com | QUERY {}"
     = Throw (AppError ReqlineMessages.URL_MUST_BE_SECOND VALIDATIONERR)
  /\ ReqlineMessages.URL_MUST_BE_SECOND <> ReqlineMessages.MISSING_HTTP_KEYWORD
  /\ parseReqlineSyntax ""
     = Throw (AppError ReqlineMessages.EMPTY_REQLINE VALIDATIONERR).
Proof. repeat split; discriminate. Qed.

(* ===================================================================== *)
(** * The loop over the segments *)
(* ===================================================================== *)

Section Scan.

Lemma prefix_app (a b c : string) : prefix (a ++ b) (a ++ c) = prefix b c.
Proof.
  induction a as [|x a IH]; simpl; [reflexivity|].
  destruct (ascii_dec x x); [exact IH | contradiction].
Qed.

Lemma prefix_refl_app (a c : string) : prefix a (a ++ c) = true.
Proof.
  rewrite <- (append_empty_r a) at 1. rewrite prefix_app. now destruct c.
Qed.

(** The keyword that [parseSegmentParts] returns is [keyword] exactly when
    the segment starts with [keyword] and a space. *)
Lemma segmentOf_keyword (keyword segment k v : string) :
  firstIndex " " keyword = None ->
  parseSegmentParts segment = Ok (k, v) ->
  segmentOf keyword segment = String.eqb k keyword.
Proof.
  intros Hkw H. destruct (parseSegmentParts_Ok _ _ _ H) as (n & Hn & Hk & _ & Hs & Hks & _).
  unfold segmentOf, startsWith. destruct (String.eqb_spec k keyword) as [->|Hne].
  - rewrite Hs, <- append_assoc. apply prefix_refl_app.
  - destruct (prefix (keyword ++ " ") segment) eqn:P; [|reflexivity].
    exfalso. apply Hne. apply prefix_split in P. rewrite append_assoc in P.
    cbn [append] in P.
    assert (E1 : firstIndex " " segment = Some (String.length keyword)).
    { rewrite P. now apply firstIndex_append. }
    rewrite Hn in E1. injection E1 as ->.
    rewrite Hk, P. now rewrite take_append.
Qed.

(** What an accepted segment does to the variables of the loop. *)
Lemma parseSegment_Ok (st st' : Scan) (segment : string) (index : nat) :
  parseSegment st segment index = Ok st' ->
  (segmentOf "HTTP" segment = true /\ segmentOf "URL" segment = false
   /\ index = O /\ httpFound st = false /\ httpFound st' = true
   /\ urlFound st' = urlFound st
   /\ (exists m, method (result st') = Some m) /\ url (result st') = url (result st))
  \/ (segmentOf "HTTP" segment = false /\ segmentOf "URL" segment = true
      /\ index = 1%nat /\ urlFound st = false /\ urlFound st' = true
      /\ httpFound st' = httpFound st
      /\ (exists v, url (result st') = Some v) /\ method (result st') = method (result st))
  \/ (segmentOf "HTTP" segment = false /\ segmentOf "URL" segment = false
      /\ httpFound st' = httpFound st /\ urlFound st' = urlFound st
      /\ method (result st') = method (result st) /\ url (result st') = url (result st)).
Proof.
  unfold parseSegment. split_guard; [discriminate|].
  destruct (parseSegmentParts segment) as [[k v]|e] eqn:P; [|discriminate].
  cbn [Errors.bind fst snd].
  rewrite (segmentOf_keyword "HTTP" segment k v eq_refl P).
  rewrite (segmentOf_keyword "URL" segment k v eq_refl P).
  destruct (String.eqb_spec k "HTTP") as [->|Hh].
  - split_guard; [discriminate|]. split_guard; [discriminate|].
    destruct (validateHttpMethod v); [|discriminate]. cbn [Errors.bind].
    intros [= <-]. left. cbn.
    apply negb_false_iff, Nat.eqb_eq in G1. repeat split; eauto.
  - destruct (String.eqb_spec k "URL") as [->|Hu].
    + split_guard; [discriminate|]. split_guard; [discriminate|].
      destruct (validateUrl v); [|discriminate]. cbn [Errors.bind].
      intros [= <-]. right; left. cbn.
      apply negb_false_iff, Nat.eqb_eq in G1. repeat split; eauto.
    + right; right.
      destruct (String.eqb k "HEADERS");
        [|destruct (String.eqb k "QUERY"); [|destruct (String.eqb k "BODY")]];
        try discriminate;
        match type of H with
        | context [parseJsonValue ?a ?b] => destruct (parseJsonValue a b)
        end; try discriminate; cbn [Errors.bind] in H; injection H as <-;
        cbn; repeat split.
Qed.

(** What a loop that ends normally says of its segments. *)
Lemma forEach_parseSegment_Ok (segments : list string) :
  forall (index : nat) (st st' : Scan),
    forEach parseSegment segments index st = Ok st' ->
    (forall j segment,
        nth_error segments j = Some segment ->
        (segmentOf "HTTP" segment = true -> (index + j = 0)%nat)
        /\ (segmentOf "URL" segment = true -> (index + j = 1)%nat))
    /\ (httpFound st' = true ->
        httpFound st = true
        \/ exists j segment, nth_error segments j = Some segment
                             /\ segmentOf "HTTP" segment = true /\ (index + j = 0)%nat)
    /\ (urlFound st' = true ->
        urlFound st = true
        \/ exists j segment, nth_error segments j = Some segment
                             /\ segmentOf "URL" segment = true /\ (index + j = 1)%nat)
    /\ (fieldsSet st -> fieldsSet st').
Proof.
  induction segments as [|x l IH]; intros index st st'; cbn [forEach].
  - intros [= <-]. split; [|split; [|split]]; auto.
    intros [|j] segment; discriminate.
  - destruct (parseSegment st x index) as [st1|e] eqn:P; [|discriminate].
    cbn [Errors.bind]. intros H.
    destruct (IH _ _ _ H) as (A & B & C & D).
    apply parseSegment_Ok in P.
    split; [|split; [|split]].
    + intros [|j] segment; cbn [nth_error].
      * intros [= <-]. rewrite Nat.add_0_r.
        destruct P as [P|[P|P]]; split; intros Q;
          destruct P as (? & ? & ? & _); congruence.
      * intros Hj. destruct (A j segment Hj) as [A1 A2].
        split; intros Q; [apply A1 in Q | apply A2 in Q]; lia.
    + intros F. destruct (B F) as [F1|(j & segment & Hj & Q & E)].
      * destruct P as [P|[P|P]].
        -- right. exists O, x. rewrite Nat.add_0_r. cbn. intuition.
        -- left. destruct P as (_ & _ & _ & _ & _ & P & _). now rewrite <- P.
        -- left. destruct P as (_ & _ & P & _). now rewrite <- P.
      * right. exists (S j), segment. cbn. repeat split; auto; lia.
    + intros F. destruct (C F) as [F1|(j & segment & Hj & Q & E)].
      * destruct P as [P|[P|P]].
        -- left. destruct P as (_ & _ & _ & _ & _ & P & _). now rewrite <- P.
        -- right. exists O, x. rewrite Nat.add_0_r. cbn. intuition.
        -- left. destruct P as (_ & _ & _ & P & _). now rewrite <- P.
      * right. exists (S j), segment. cbn. repeat split; auto; lia.
    + intros [F1 F2]. apply D. unfold fieldsSet.
      destruct P as [P|[P|P]].
      * destruct P as (_ & _ & _ & _ & _ & -> & Hm & ->). split; auto.
      * destruct P as (_ & _ & _ & _ & _ & -> & Hu & ->). split; auto.
      * destruct P as (_ & _ & -> & -> & -> & ->). split; auto.
Qed.

End Scan.

Lemma forEach_app {A St : Type} (f : St -> A -> nat -> M St) (l1 l2 : list A) :
  forall (index : nat) (st : St),
    forEach f (l1 ++ l2)%list index st
    = (st' <- forEach f l1 index st ;; forEach f l2 (index + List.length l1)%nat st').
Proof.
  induction l1 as [|x l IH]; intros index st; cbn [forEach List.app List.length].
  - now rewrite Nat.add_0_r.
  - destruct (f st x index) as [st1|e]; cbn [Errors.bind]; [|reflexivity].
    rewrite IH. now rewrite Nat.add_succ_r.
Qed.

Lemma nth_error_cut {A : Type} (l : list A) (i : nat) (x : A) :
  nth_error l i = Some x ->
  l = (firstn i l ++ x :: skipn (S i) l)%list /\ List.length (firstn i l) = i.
Proof.
  revert i; induction l as [|y l IH]; intros [|i]; cbn [nth_error]; try discriminate.
  - now intros [= ->].
  - intros H. destruct (IH i H) as [E L].
    cbn [firstn skipn List.app List.length]. split; [f_equal; exact E | now rewrite L].
Qed.

(** A misplaced segment stops the loop. *)
Lemma misplaced_stops_scan (segments : list string) :
  misplaced segments -> exists e, scanSegments segments = Throw e.
Proof.
  intros (i & segment & Hi & H). unfold scanSegments.
  destruct (forEach parseSegment segments 0 initialScan) as [st|e] eqn:E; [|now exists e].
  exfalso. destruct (forEach_parseSegment_Ok _ _ _ _ E) as (A & _).
  destruct (A i segment Hi) as [A1 A2]. cbn in A1, A2.
  destruct H as [[Q N]|[Q N]]; [apply A1 in Q | apply A2 in Q]; contradiction.
Qed.

(** The message when the loop reaches a segment of keyword [HTTP] or [URL]
    at another index than its own. *)
Lemma misplaced_message (segments : list string) (i : nat) (segment : string) (st : Scan) :
  forEach parseSegment (firstn i segments) 0 initialScan = Ok st ->
  nth_error segments i = Some segment ->
  indexOf "  " segment = -1 ->
  (segmentOf "HTTP" segment = true -> i <> 0%nat ->
   scanSegments segments
   = Throw (AppError (if httpFound st then ReqlineMessages.DUPLICATE_HTTP_KEYWORD
                      else ReqlineMessages.HTTP_MUST_BE_FIRST) VALIDATIONERR))
  /\ (segmentOf "URL" segment = true -> i <> 1%nat ->
      scanSegments segments
      = Throw (AppError (if urlFound st then ReqlineMessages.DUPLICATE_URL_KEYWORD
                         else ReqlineMessages.URL_MUST_BE_SECOND) VALIDATIONERR)).
Proof.
  intros Hpre Hi Hsp. destruct (nth_error_cut _ _ _ Hi) as [Hcut Hlen].
  assert (S : scanSegments segments
              = (st' <- parseSegment st segment i ;;
                 forEach parseSegment (skipn (S i) segments) (S i) st')).
  { unfold scanSegments. rewrite Hcut at 1. rewrite forEach_app, Hpre, Hlen. reflexivity. }
  rewrite S. clear S Hcut Hpre.
  split; intros Q N; unfold segmentOf, startsWith in Q; apply prefix_split in Q;
    rewrite append_assoc in Q; rewrite Q in Hsp |- *; unfold parseSegment;
    rewrite parseSegmentParts_keyword by reflexivity; rewrite Hsp; cbn.
  - destruct (httpFound st); [reflexivity|]. cbn.
    destruct i; [contradiction | reflexivity].
  - destruct (urlFound st); [reflexivity|]. cbn.
    destruct i as [|[|i]]; [reflexivity | contradiction | reflexivity].
Qed.

(** C4 (as amended).  For every input that validates, the segments of
    keyword HTTP are exactly the one at index 0 and the segments of keyword
    URL exactly the one at index 1, and [method] and [url] of the request
    are not null.  Conversely, an input with a segment of keyword HTTP at
    another index than 0, or of keyword URL at another index than 1, is
    refused inside the loop over the segments, never by the checks for a
    missing keyword that follow the loop.  When the loop reaches such a
    segment (the segments before it were accepted) and the segment holds no
    run of two spaces, the message is the one of the position ("HTTP keyword
    must be first", "URL keyword must be second") if the keyword was not seen
    before, and the one of the duplicate if it was. *)
Theorem http_first_url_second :
  (forall (reqline : string) (parsed : ParsedRequest),
      parseReqlineSyntax reqline = Ok parsed ->
      exists segments,
        splitByPipe (trim reqline) = Ok segments
        /\ (forall i segment,
               nth_error segments i = Some segment ->
               (segmentOf "HTTP" segment = true <-> i = 0%nat)
               /\ (segmentOf "URL" segment = true <-> i = 1%nat))
        /\ (exists m v, method parsed = Some m /\ url parsed = Some v))
  /\ (forall (reqline : string) (segments : list string),
         splitByPipe (trim reqline) = Ok segments ->
         misplaced segments ->
         exists e, scanSegments segments = Throw e /\ parseReqlineSyntax reqline = Throw e)
  /\ (forall (segments : list string) (i : nat) (segment : string) (st : Scan),
         forEach parseSegment (firstn i segments) 0 initialScan = Ok st ->
         nth_error segments i = Some segment ->
         indexOf "  " segment = -1 ->
         (segmentOf "HTTP" segment = true -> i <> 0%nat ->
          parseSegments segments
          = Throw (AppError (if httpFound st then ReqlineMessages.DUPLICATE_HTTP_KEYWORD
                             else ReqlineMessages.HTTP_MUST_BE_FIRST) VALIDATIONERR))
         /\ (segmentOf "URL" segment = true -> i <> 1%nat ->
             parseSegments segments
             = Throw (AppError (if urlFound st then ReqlineMessages.DUPLICATE_URL_KEYWORD
                                else ReqlineMessages.URL_MUST_BE_SECOND) VALIDATIONERR))).
Proof.
  split; [|split].
  - intros reqline parsed. unfold parseReqlineSyntax.
    split_guard; [discriminate|].
    destruct (splitByPipe (trim reqline)) as [segments|e]; [|discriminate].
    cbn [Errors.bind]. unfold parseSegments, scanSegments.
    destruct (forEach parseSegment segments 0 initialScan) as [st|e] eqn:E; [|discriminate].
    cbn [Errors.bind]. split_guard; [discriminate|]. split_guard; [discriminate|].
    intros [= <-]. exists segments. split; [reflexivity|].
    apply negb_false_iff in G0, G1.
    destruct (forEach_parseSegment_Ok _ _ _ _ E) as (A & B & C & D).
    destruct (B G0) as [|(j & s & Hj & Q & Ej)]; [discriminate|].
    destruct (C G1) as [|(j' & s' & Hj' & Q' & Ej')]; [discriminate|].
    cbn in Ej, Ej'. subst j j'. split.
    + intros i segment Hi. destruct (A i segment Hi) as [A1 A2]. cbn in A1, A2.
      split; split; auto; intros ->; congruence.
    + destruct D as [D1 D2].
      * split; discriminate.
      * destruct (D1 G0) as [m Hm]. destruct (D2 G1) as [v Hv]. now exists m, v.
  - intros reqline segments Hs Hm.
    destruct (misplaced_stops_scan _ Hm) as [e He]. exists e. split; [exact He|].
    unfold parseReqlineSyntax. rewrite Hs.
    destruct (String.eqb_spec (trim reqline) "") as [E|_].
    + rewrite E in Hs. discriminate.
    + cbn [Errors.bind]. unfold parseSegments. rewrite He. reflexivity.
  - intros segments i segment st Hpre Hi Hsp.
    destruct (misplaced_message _ _ _ _ Hpre Hi Hsp) as [A B].
    split; intros Q N; unfold parseSegments; [rewrite (A Q N) | rewrite (B Q N)]; reflexivity.
Qed.

Lemma http_first_url_second_witness :
  (exists m v, method roundtripRequest = Some m /\ url roundtripRequest = Some v)
  /\ (exists e,
         scanSegments ["HEADERS {}"; "URL https://example.com"; "HTTP GET"] = Throw e
         /\ parseReqlineSyntax "HEADERS {} | URL https://example.com | HTTP GET" = Throw e)
  /\ parseSegments ["HEADERS {}"; "URL https://example.com"; "HTTP GET"]
     = Throw (AppError ReqlineMessages.HTTP_MUST_BE_FIRST VALIDATIONERR).
Proof.
  destruct http_first_url_second as (A & B & C). split; [|split].
  - destruct (A roundtripReqline roundtripRequest eq_refl) as (segments & _ & _ & H).
    exact H.
  - apply (B "HEADERS {} | URL https://example.com | HTTP GET"
             ["HEADERS {}"; "URL https://example.com"; "HTTP GET"] eq_refl).
    exists 2%nat, "HTTP GET". split; [reflexivity|]. left. split; [reflexivity | discriminate].
  - apply (C ["HEADERS {}"; "URL https://example.com"; "HTTP GET"] 2%nat "HTTP GET"
             (mkScan (mkParsedRequest None (Some "https://example.com") (JObj []) (JObj [])
                        (JObj [])) false true)
             eq_refl eq_refl eq_refl); [reflexivity | discriminate].
Defined.

(** C4, as stated, fails: in [HTTP GET | URL https://example.com | HTTP GET]
    the third segment is of keyword HTTP at index 2, and validation fails
    with "HTTP keyword can only appear once", which is neither of the two
    position messages. *)
Lemma misplaced_http_reported_as_duplicate :
  splitByPipe (trim "HTTP GET | URL https://example.com | HTTP GET")
  = Ok ["HTTP GET"; "URL https://example.com"; "HTTP GET"]
  /\ segmentOf "HTTP" "HTTP GET" = true
  /\ parseReqlineSyntax "HTTP GET | URL https://example.com | HTTP GET"
     = Throw (AppError ReqlineMessages.DUPLICATE_HTTP_KEYWORD VALIDATIONERR)
  /\ ReqlineMessages.DUPLICATE_HTTP_KEYWORD <> ReqlineMessages.HTTP_MUST_BE_FIRST
  /\ ReqlineMessages.DUPLICATE_HTTP_KEYWORD <> ReqlineMessages.URL_MUST_BE_SECOND.
Proof. repeat split; discriminate. Qed.

(* ===================================================================== *)
(** * Further properties of the validator *)
(* ===================================================================== *)

Lemma indexOf_scheme_http (r : string) : indexOf "://" ("http://" ++ r) = 4.
Proof. destruct r; reflexivity. Qed.

Lemma indexOf_scheme_https (r : string) : indexOf "://" ("https://" ++ r) = 5.
Proof. destruct r; reflexivity. Qed.

(** [validateUrl] lets through the well-formed URLs and no other. *)
Lemma validateUrl_iff (url : string) :
  validateUrl url = Ok tt <-> wellFormedUrl url.
Proof.
  unfold validateUrl, wellFormedUrl, startsWith. split.
  - split_guard; [discriminate|]. split_guard; [discriminate|].
    destruct (prefix "http://" url) eqn:P1.
    + apply prefix_split in P1. cbn [String.length] in P1.
      rewrite P1, indexOf_scheme_http, length_append. cbn [String.length].
      destruct (drop 7 url) as [|c r] eqn:D.
      * cbn. discriminate.
      * intros _. exists (String c r). split; [discriminate | now left].
    + destruct (prefix "https://" url) eqn:P2; [|discriminate].
      apply prefix_split in P2. cbn [String.length] in P2.
      rewrite P2, indexOf_scheme_https, length_append. cbn [String.length].
      destruct (drop 8 url) as [|c r] eqn:D.
      * cbn. discriminate.
      * intros _. exists (String c r). split; [discriminate | now right].
  - intros (rest & Hne & [->| ->]); destruct rest as [|c r]; try contradiction.
    + rewrite indexOf_scheme_http, length_append.
      change (String.eqb ("http://" ++ String c r) "") with false.
      change (prefix "http://" ("http://" ++ String c r)) with true.
      cbn [negb andb Errors.bind String.length].
      destruct (Z.leb_spec (Z.of_nat (7 + S (String.length r))) (4 + 3)); [lia|].
      reflexivity.
    + rewrite indexOf_scheme_https, length_append.
      change (String.eqb ("https://" ++ String c r) "") with false.
      change (prefix "https://" ("https://" ++ String c r)) with true.
      rewrite andb_false_r.
      cbn [negb andb Errors.bind String.length].
      destruct (Z.leb_spec (Z.of_nat (8 + S (String.length r))) (5 + 3)); [lia|].
      reflexivity.
Qed.

Lemma validateUrl_result (url : string) :
  validateUrl url = Ok tt
  \/ validateUrl url = Throw (AppError ReqlineMessages.INVALID_URL_FORMAT VALIDATIONERR).
Proof.
  unfold validateUrl. repeat (split_guard; [now right|]).
  destruct (_ || _); [now right | now left].
Qed.

(** X1.  [validateUrl] accepts a URL exactly when it is [http://] or
    [https://] followed by at least one code unit, and every URL it refuses
    is refused with "Invalid URL format". *)
Theorem validateUrl_accepts_scheme_and_rest :
  forall url : string,
    (validateUrl url = Ok tt <-> wellFormedUrl url)
    /\ (validateUrl url = Ok tt
        \/ validateUrl url
           = Throw (AppError ReqlineMessages.INVALID_URL_FORMAT VALIDATIONERR)).
Proof.
  intros url. split; [apply validateUrl_iff | apply validateUrl_result].
Qed.

(** [validateHttpMethod] lets through GET and POST and no other text. *)
Lemma validateHttpMethod_iff (m : string) :
  validateHttpMethod m = Ok tt <-> m = "GET" \/ m = "POST".
Proof.
  unfold validateHttpMethod. split.
  - split_guard; [discriminate|].
    unfold arrayIncludes. cbn [existsb].
    destruct (String.eqb_spec m "GET") as [->|]; [now left|].
    destruct (String.eqb_spec m "POST") as [->|]; [now right|].
    cbn. discriminate.
  - intros [->| ->]; reflexivity.
Qed.

(** A property of the variables that every accepted step keeps is kept by
    the loop. *)
Lemma forEach_invariant {A St : Type} (f : St -> A -> nat -> M St) (P : St -> Prop)
      (l : list A) :
  (forall st x i st', In x l -> f st x i = Ok st' -> P st -> P st') ->
  forall i st st', forEach f l i st = Ok st' -> P st -> P st'.
Proof.
  induction l as [|x l IH]; intros Hf i st st'; cbn [forEach].
  - now intros [= <-].
  - destruct (f st x i) as [st1|e] eqn:E; [|discriminate]. cbn [Errors.bind].
    intros H HP. apply (IH (fun st0 y j st1' Hy => Hf st0 y j st1' (or_intror Hy)) _ _ _ H).
    eapply Hf; eauto. now left.
Qed.

(** Every element of a loop that ends normally was accepted by its step. *)
Lemma forEach_each {A St : Type} (f : St -> A -> nat -> M St) (l : list A) :
  forall i st st', forEach f l i st = Ok st' ->
                   forall x, In x l -> exists st1 j st2, f st1 x j = Ok st2.
Proof.
  induction l as [|y l IH]; intros i st st'; cbn [forEach]; [intros _ x []|].
  destruct (f st y i) as [st1|e] eqn:E; [|discriminate]. cbn [Errors.bind].
  intros H x [<-|Hx]; [now exists st, i, st1 | eapply IH; eauto].
Qed.

(** The steps of [parseSegment], for a segment that [parseSegmentParts]
    accepts. *)
Lemma parseSegment_parts (st : Scan) (segment k v : string) (index : nat) :
  parseSegmentParts segment = Ok (k, v) ->
  parseSegment st segment index =
  if String.eqb k "HTTP" then
    (if httpFound st
     then throwAppError ReqlineMessages.DUPLICATE_HTTP_KEYWORD VALIDATIONERR
     else Ok tt) ;;;
    (if negb (index =? 0)%nat
     then throwAppError ReqlineMessages.HTTP_MUST_BE_FIRST VALIDATIONERR
     else Ok tt) ;;;
    validateHttpMethod v ;;;
    Ok (mkScan (setMethod (result st) v) true (urlFound st))
  else if String.eqb k "URL" then
    (if urlFound st
     then throwAppError ReqlineMessages.DUPLICATE_URL_KEYWORD VALIDATIONERR
     else Ok tt) ;;;
    (if negb (index =? 1)%nat
     then throwAppError ReqlineMessages.URL_MUST_BE_SECOND VALIDATIONERR
     else Ok tt) ;;;
    validateUrl v ;;;
    Ok (mkScan (setUrl (result st) v) (httpFound st) true)
  else if String.eqb k "HEADERS" then
    j <- parseJsonValue v "HEADERS" ;;
    Ok (mkScan (setHeaders (result st) j) (httpFound st) (urlFound st))
  else if String.eqb k "QUERY" then
    j <- parseJsonValue v "QUERY" ;;
    Ok (mkScan (setQuery (result st) j) (httpFound st) (urlFound st))
  else if String.eqb k "BODY" then
    j <- parseJsonValue v "BODY" ;;
    Ok (mkScan (setBody (result st) j) (httpFound st) (urlFound st))
  else throwAppError ReqlineMessages.UNKNOWN_KEYWORD VALIDATIONERR.
Proof.
  intros P. unfold parseSegment. rewrite P.
  destruct (parseSegmentParts_Ok _ _ _ P) as (_ & _ & _ & _ & Hs & _).
  destruct (String.eqb_spec segment "") as [E|_]; [|reflexivity].
  rewrite E in Hs. destruct k; discriminate.
Qed.

Lemma parseJsonValue_Ok (value field : string) (v : json) :
  parseJsonValue value field = Ok v -> JSON.parse value = Some v.
Proof.
  unfold parseJsonValue. destruct (JSON.parse value); [now intros [= ->] | discriminate].
Qed.

(** An accepted segment: its keyword, its value, and what it changes. *)
Lemma parseSegment_accepted (st st' : Scan) (segment : string) (index : nat) :
  parseSegment st segment index = Ok st' ->
  exists k v,
    segment = k ++ " " ++ v /\ indexOf "  " segment = -1
    /\ ((k = "HTTP" /\ validateHttpMethod v = Ok tt
         /\ result st' = setMethod (result st) v)
        \/ (k = "URL" /\ validateUrl v = Ok tt /\ result st' = setUrl (result st) v)
        \/ (k = "HEADERS" /\ exists j, JSON.parse v = Some j
                                       /\ result st' = setHeaders (result st) j)
        \/ (k = "QUERY" /\ exists j, JSON.parse v = Some j
                                     /\ result st' = setQuery (result st) j)
        \/ (k = "BODY" /\ exists j, JSON.parse v = Some j
                                    /\ result st' = setBody (result st) j)).
Proof.
  intros H.
  destruct (parseSegmentParts segment) as [[k v]|e] eqn:P.
  - rewrite (parseSegment_parts _ _ _ _ _ P) in H.
    destruct (parseSegmentParts_Ok _ _ _ P) as (_ & _ & _ & _ & Hs & _ & Hsp).
    exists k, v. split; [exact Hs|]. split; [exact Hsp|].
    destruct (String.eqb_spec k "HTTP") as [->|_].
    { split_guard; [discriminate|]. split_guard; [discriminate|].
      destruct (validateHttpMethod v) as [[]|] eqn:V; [|discriminate].
      cbn in H. injection H as <-. left. auto. }
    destruct (String.eqb_spec k "URL") as [->|_].
    { split_guard; [discriminate|]. split_guard; [discriminate|].
      destruct (validateUrl v) as [[]|] eqn:V; [|discriminate].
      cbn in H. injection H as <-. right; left. auto. }
    destruct (String.eqb_spec k "HEADERS") as [->|_].
    { destruct (parseJsonValue v "HEADERS") as [j|] eqn:J; [|discriminate].
      cbn in H. injection H as <-. apply parseJsonValue_Ok in J.
      right; right; left. eauto. }
    destruct (String.eqb_spec k "QUERY") as [->|_].
    { destruct (parseJsonValue v "QUERY") as [j|] eqn:J; [|discriminate].
      cbn in H. injection H as <-. apply parseJsonValue_Ok in J.
      right; right; right; left. eauto. }
    destruct (String.eqb_spec k "BODY") as [->|_]; [|discriminate].
    destruct (parseJsonValue v "BODY") as [j|] eqn:J; [|discriminate].
    cbn in H. injection H as <-. apply parseJsonValue_Ok in J.
    right; right; right; right. eauto.
  - unfold parseSegment in H. rewrite P in H.
    destruct (String.eqb segment ""); discriminate.
Qed.

Lemma parseSegment_checkedFields (st st' : Scan) (segment : string) (index : nat) :
  parseSegment st segment index = Ok st' -> checkedFields st -> checkedFields st'.
Proof.
  intros H [C1 C2]. apply parseSegment_accepted in H as (k & v & _ & _ & H).
  unfold checkedFields.
  destruct H as [(_ & V & ->)|[(_ & V & ->)|[(_ & j & _ & ->)|[(_ & j & _ & ->)|(_ & j & _ & ->)]]]];
    cbn; split; auto; intros x [= <-]; exact V.
Qed.

(** X2.  The request that [parseSegments] returns has the method GET or
    POST and a URL that is [http://] or [https://] followed by at least one
    code unit; neither is null. *)
Theorem parsed_request_method_and_url :
  forall (segments : list string) (parsed : ParsedRequest),
    parseSegments segments = Ok parsed ->
    (method parsed = Some "GET" \/ method parsed = Some "POST")
    /\ exists v, url parsed = Some v /\ wellFormedUrl v.
Proof.
  intros segments parsed. unfold parseSegments, scanSegments.
  destruct (forEach parseSegment segments 0 initialScan) as [st|e] eqn:E; [|discriminate].
  cbn [Errors.bind]. split_guard; [discriminate|]. split_guard; [discriminate|].
  intros [= <-]. apply negb_false_iff in G, G0.
  destruct (forEach_parseSegment_Ok _ _ _ _ E) as (_ & _ & _ & D).
  destruct D as [D1 D2]; [split; discriminate|].
  assert (C : checkedFields st).
  { apply (forEach_invariant parseSegment checkedFields segments) with (i := O) (st := initialScan).
    - intros s x i s' _. apply parseSegment_checkedFields.
    - exact E.
    - split; discriminate. }
  destruct C as [C1 C2]. destruct (D1 G) as [m Hm]. destruct (D2 G0) as [v Hv].
  split.
  - rewrite Hm. apply C1, validateHttpMethod_iff in Hm. destruct Hm as [->| ->]; auto.
  - exists v. split; [exact Hv|]. now apply validateUrl_iff, C2.
Qed.

Lemma parsed_request_method_and_url_witness :
  (method roundtripRequest = Some "GET" \/ method roundtripRequest = Some "POST")
  /\ exists v, url roundtripRequest = Some v /\ wellFormedUrl v.
Proof.
  apply (parsed_request_method_and_url
           ["HTTP GET"; "URL https://example.com"; "QUERY {" ++ quoted "a" ++ ":1}"]).
  reflexivity.
Defined.

Lemma JSON_parse_empty : JSON.parse "" = None.
Proof. reflexivity. Qed.

(** X3.  Every segment of a list that [parseSegments] accepts is one of the
    five keywords, one space and a value that is not empty, and holds no run
    of two spaces. *)
Theorem accepted_segments_are_keyword_space_value :
  forall (segments : list string) (parsed : ParsedRequest) (segment : string),
    parseSegments segments = Ok parsed ->
    In segment segments ->
    exists keyword value,
      segment = keyword ++ " " ++ value
      /\ In keyword keywords
      /\ value <> ""
      /\ indexOf "  " segment = -1.
Proof.
  intros segments parsed segment. unfold parseSegments, scanSegments.
  destruct (forEach parseSegment segments 0 initialScan) as [st|e] eqn:E; [|discriminate].
  intros _ Hin.
  destruct (forEach_each _ _ _ _ _ E segment Hin) as (st1 & j & st2 & H).
  apply parseSegment_accepted in H as (k & v & Hs & Hsp & H).
  exists k, v. split; [exact Hs|]. unfold keywords.
  destruct H as [(-> & V & _)|[(-> & V & _)|[(-> & x & V & _)|[(-> & x & V & _)|(-> & x & V & _)]]]];
    (split; [simpl; tauto|]); (split; [|exact Hsp]); intros ->;
    try (rewrite JSON_parse_empty in V; discriminate); discriminate.
Qed.

Lemma accepted_segments_are_keyword_space_value_witness :
  exists keyword value,
    "URL https://example.com" = keyword ++ " " ++ value
    /\ In keyword keywords
    /\ value <> ""
    /\ indexOf "  " "URL https://example.com" = -1.
Proof.
  apply (accepted_segments_are_keyword_space_value
           ["HTTP GET"; "URL https://example.com"]
           (mkParsedRequest (Some "GET") (Some "https://example.com")
              (JObj []) (JObj []) (JObj []))).
  - reflexivity.
  - simpl. auto.
Defined.

(** A segment that is not of keyword [keyword] has another keyword. *)
Lemma parseSegment_other_keyword (st st' : Scan) (segment keyword : string) (index : nat) :
  firstIndex " " keyword = None ->
  segmentOf keyword segment = false ->
  parseSegment st segment index = Ok st' ->
  exists k v, segment = k ++ " " ++ v /\ k <> keyword
              /\ parseSegmentParts segment = Ok (k, v).
Proof.
  intros Hk Hs H.
  destruct (parseSegmentParts segment) as [[k v]|e] eqn:P.
  - exists k, v. destruct (parseSegmentParts_Ok _ _ _ P) as (_ & _ & _ & _ & E & _).
    split; [exact E|]. split; [|reflexivity].
    rewrite (segmentOf_keyword keyword segment k v Hk P) in Hs.
    now apply String.eqb_neq.
  - unfold parseSegment in H. rewrite P in H. destruct (String.eqb segment ""); discriminate.
Qed.

Lemma parseSegment_keeps_field (st st' : Scan) (segment keyword : string) (index : nat)
      (field : ParsedRequest -> json) :
  (keyword = "HEADERS" /\ field = headers)
  \/ (keyword = "QUERY" /\ field = query)
  \/ (keyword = "BODY" /\ field = body) ->
  segmentOf keyword segment = false ->
  parseSegment st segment index = Ok st' ->
  field (result st') = field (result st).
Proof.
  intros Hf Hs H.
  assert (Hk : firstIndex " " keyword = None)
    by (destruct Hf as [[-> _]|[[-> _]|[-> _]]]; reflexivity).
  destruct (parseSegment_other_keyword _ _ _ _ _ Hk Hs H) as (k & v & E & Hne & P).
  rewrite (parseSegment_parts _ _ _ _ _ P) in H.
  destruct (String.eqb_spec k "HTTP") as [->|_].
  { split_guard; [discriminate|]. split_guard; [discriminate|].
    destruct (validateHttpMethod v); [|discriminate]. cbn in H. injection H as <-.
    destruct Hf as [[_ ->]|[[_ ->]|[_ ->]]]; reflexivity. }
  destruct (String.eqb_spec k "URL") as [->|_].
  { split_guard; [discriminate|]. split_guard; [discriminate|].
    destruct (validateUrl v); [|discriminate]. cbn in H. injection H as <-.
    destruct Hf as [[_ ->]|[[_ ->]|[_ ->]]]; reflexivity. }
  destruct (String.eqb_spec k "HEADERS") as [->|_].
  { destruct (parseJsonValue v "HEADERS"); [|discriminate]. cbn in H. injection H as <-.
    destruct Hf as [[-> ->]|[[_ ->]|[_ ->]]]; [contradiction | reflexivity | reflexivity]. }
  destruct (String.eqb_spec k "QUERY") as [->|_].
  { destruct (parseJsonValue v "QUERY"); [|discriminate]. cbn in H. injection H as <-.
    destruct Hf as [[_ ->]|[[-> ->]|[_ ->]]]; [reflexivity | contradiction | reflexivity]. }
  destruct (String.eqb_spec k "BODY") as [->|_]; [|discriminate].
  destruct (parseJsonValue v "BODY"); [|discriminate]. cbn in H. injection H as <-.
  destruct Hf as [[_ ->]|[[_ ->]|[-> ->]]]; [reflexivity | reflexivity | contradiction].
Qed.

(** X4.  A field whose keyword is in no segment keeps its default: when
    [parseSegments] accepts a list of segments with no HEADERS segment the
    headers are the empty object, and likewise the query without a QUERY
    segment and the body without a BODY segment. *)
Theorem absent_keyword_leaves_empty_object :
  forall (segments : list string) (parsed : ParsedRequest),
    parseSegments segments = Ok parsed ->
    ((forall s, In s segments -> segmentOf "HEADERS" s = false) -> headers parsed = JObj [])
    /\ ((forall s, In s segments -> segmentOf "QUERY" s = false) -> query parsed = JObj [])
    /\ ((forall s, In s segments -> segmentOf "BODY" s = false) -> body parsed = JObj []).
Proof.
  intros segments parsed. unfold parseSegments, scanSegments.
  destruct (forEach parseSegment segments 0 initialScan) as [st|e] eqn:E; [|discriminate].
  cbn [Errors.bind]. split_guard; [discriminate|]. split_guard; [discriminate|].
  intros [= <-].
  assert (K : forall keyword field,
             (keyword = "HEADERS" /\ field = headers)
             \/ (keyword = "QUERY" /\ field = query)
             \/ (keyword = "BODY" /\ field = body) ->
             (forall s, In s segments -> segmentOf keyword s = false) ->
             field (result st) = JObj []).
  { intros keyword field Hf Hno.
    apply (forEach_invariant parseSegment (fun s => field (result s) = JObj []) segments)
      with (i := O) (st := initialScan).
    - intros s x i s' Hx Hp Hs. rewrite <- Hs.
      apply (parseSegment_keeps_field s s' x keyword i field Hf (Hno x Hx) Hp).
    - exact E.
    - destruct Hf as [[_ ->]|[[_ ->]|[_ ->]]]; reflexivity. }
  split; [|split]; apply K; auto.
Qed.

Lemma absent_keyword_leaves_empty_object_witness :
  headers roundtripRequest = JObj [] /\ body roundtripRequest = JObj [].
Proof.
  destruct (absent_keyword_leaves_empty_object
              ["HTTP GET"; "URL https://example.com"; "QUERY {" ++ quoted "a" ++ ":1}"]
              roundtripRequest eq_refl) as (A & _ & B).
  split; [apply A | apply B];
    intros s [<-|[<-|[<-|[]]]]; reflexivity.
Defined.

(** X5.  The last segment of a keyword wins, and HEADERS, QUERY and BODY may
    come again: a BODY (HEADERS, QUERY) segment with a valid JSON value and
    no run of two spaces, put after a list of segments that [parseSegments]
    accepts, is accepted too, and the request is the same with the body
    (headers, query) replaced by the new value. *)
Theorem later_json_segment_replaces_field :
  forall (segments : list string) (parsed : ParsedRequest) (value : string) (v : json),
    parseSegments segments = Ok parsed ->
    JSON.parse value = Some v ->
    (indexOf "  " ("HEADERS " ++ value) = -1 ->
     parseSegments (segments ++ ["HEADERS " ++ value]) = Ok (setHeaders parsed v))
    /\ (indexOf "  " ("QUERY " ++ value) = -1 ->
        parseSegments (segments ++ ["QUERY " ++ value]) = Ok (setQuery parsed v))
    /\ (indexOf "  " ("BODY " ++ value) = -1 ->
        parseSegments (segments ++ ["BODY " ++ value]) = Ok (setBody parsed v)).
Proof.
  intros segments parsed value v. unfold parseSegments, scanSegments.
  destruct (forEach parseSegment segments 0 initialScan) as [st|e] eqn:E; [|discriminate].
  cbn [Errors.bind]. split_guard; [discriminate|]. split_guard; [discriminate|].
  intros [= <-] Hv.
  split; [|split]; intros Hsp; rewrite forEach_app, E; cbn [Errors.bind forEach].
  - change ("HEADERS " ++ value) with ("HEADERS" ++ " " ++ value).
    rewrite (proj1 (parseSegment_json st _ "HEADERS" value v Hv Hsp) eq_refl).
    cbn. now rewrite G, G0.
  - change ("QUERY " ++ value) with ("QUERY" ++ " " ++ value).
    rewrite (proj1 (proj2 (parseSegment_json st _ "QUERY" value v Hv Hsp)) eq_refl).
    cbn. now rewrite G, G0.
  - change ("BODY " ++ value) with ("BODY" ++ " " ++ value).
    rewrite (proj2 (proj2 (parseSegment_json st _ "BODY" value v Hv Hsp)) eq_refl).
    cbn. now rewrite G, G0.
Qed.

Lemma later_json_segment_replaces_field_witness :
  parseSegments (["HTTP GET"; "URL https://example.com"; "BODY 5"] ++ ["BODY [1]"])
  = Ok (mkParsedRequest (Some "GET") (Some "https://example.com")
          (JObj []) (JObj []) (JArr [JNum (Int 1)])).
Proof.
  apply (later_json_segment_replaces_field
           ["HTTP GET"; "URL https://example.com"; "BODY 5"]
           (mkParsedRequest (Some "GET") (Some "https://example.com")
              (JObj []) (JObj []) (JNum (Int 5)))
           "[1]" (JArr [JNum (Int 1)]) eq_refl eq_refl).
  reflexivity.
Defined.

(* ===================================================================== *)
(** * The messages of the validator *)
(* ===================================================================== *)

Lemma tableOnly_Ok {A : Type} (a : A) : tableOnly (Ok a).
Proof. intros e; discriminate. Qed.

Lemma tableOnly_throw {A : Type} (msg : string) :
  inTable msg = true -> tableOnly (@throwAppError A msg VALIDATIONERR).
Proof. intros H e [= <-]. now exists msg. Qed.

Lemma tableOnly_bind {A B : Type} (c : M A) (k : A -> M B) :
  tableOnly c -> (forall a, tableOnly (k a)) -> tableOnly (Errors.bind c k).
Proof.
  intros Hc Hk e. destruct c as [a|e']; cbn.
  - apply Hk.
  - intros [= <-]. now apply Hc.
Qed.

Lemma tableOnly_guard (b : bool) (msg : string) :
  inTable msg = true ->
  tableOnly (if b then throwAppError msg VALIDATIONERR else Ok tt).
Proof. intros H. destruct b; [now apply tableOnly_throw | apply tableOnly_Ok]. Qed.

Lemma tableOnly_forEach {A St : Type} (f : St -> A -> nat -> M St) (l : list A) :
  (forall st x i, tableOnly (f st x i)) ->
  forall i st, tableOnly (forEach f l i st).
Proof.
  intros Hf. induction l as [|x l IH]; intros i st; cbn.
  - apply tableOnly_Ok.
  - apply tableOnly_bind; [apply Hf | intros a; apply IH].
Qed.

Ltac table_only :=
  repeat first
    [ apply tableOnly_bind; [|intros ?]
    | apply tableOnly_guard; reflexivity
    | apply tableOnly_throw; reflexivity
    | apply tableOnly_Ok ].

Lemma tableOnly_parseSegmentParts (segment : string) : tableOnly (parseSegmentParts segment).
Proof. unfold parseSegmentParts. table_only. Qed.

Lemma tableOnly_parseSegment (st : Scan) (segment : string) (index : nat) :
  tableOnly (parseSegment st segment index).
Proof.
  unfold parseSegment, validateHttpMethod, validateUrl, parseJsonValue.
  apply tableOnly_bind; [apply tableOnly_guard; reflexivity | intros _].
  apply tableOnly_bind; [apply tableOnly_parseSegmentParts | intros parts].
  repeat match goal with
         | |- tableOnly (if ?b then _ else _) => destruct b
         end;
    repeat first
      [ apply tableOnly_bind; [|intros ?]
      | apply tableOnly_guard; reflexivity
      | apply tableOnly_throw; reflexivity
      | apply tableOnly_Ok
      | match goal with
        | |- tableOnly (match ?o with Some _ => _ | None => _ end) => destruct o
        end ].
Qed.

(** What [parseReqlineSyntax] throws is a validation error with a message
    of the table. *)
Lemma tableOnly_parseReqlineSyntax (reqline : string) :
  tableOnly (parseReqlineSyntax reqline).
Proof.
  unfold parseReqlineSyntax.
  apply tableOnly_bind; [apply tableOnly_guard; reflexivity | intros _].
  apply tableOnly_bind.
  - unfold splitByPipe. destruct (negb _).
    + table_only.
    + apply tableOnly_bind; [|intros; apply tableOnly_Ok].
      apply tableOnly_forEach. intros st x i. unfold checkSpacing. table_only.
  - intros segments. apply tableOnly_bind; [|intros; apply tableOnly_Ok].
    unfold parseSegments. apply tableOnly_bind.
    + apply tableOnly_forEach. apply tableOnly_parseSegment.
    + intros st. table_only.
Qed.

(** X6.  Every failure of [parseReqlineSyntax] is a validation error whose
    message is one of the messages of the table [ReqlineMessages]; the
    message that [parseJsonValue] reads by a computed key is among them. *)
Theorem validator_messages_are_in_table :
  forall (reqline : string) (e : Exception),
    parseReqlineSyntax reqline = Throw e ->
    exists key msg,
      In (key, msg) ReqlineMessages.table /\ e = AppError msg VALIDATIONERR.
Proof.
  intros reqline e H.
  destruct (tableOnly_parseReqlineSyntax reqline e H) as (msg & Hin & ->).
  unfold inTable in Hin. apply existsb_exists in Hin as ([key msg'] & Hin & E).
  apply String.eqb_eq in E. cbn in E. subst msg'. now exists key, msg.
Qed.

Lemma validator_messages_are_in_table_witness :
  exists key msg,
    In (key, msg) ReqlineMessages.table
    /\ AppError ReqlineMessages.INVALID_JSON_FORMAT_QUERY VALIDATIONERR
       = AppError msg VALIDATIONERR.
Proof.
  apply (validator_messages_are_in_table "HTTP GET | URL https://example.com | QUERY {").
  reflexivity.
Defined.

(** X7.  A reqline that holds no pipe is never accepted: it fails with
    "Reqline string cannot be empty", "Missing required HTTP keyword",
    "Missing required URL keyword" or "Missing pipe delimiter". *)
Theorem reqline_without_pipe_is_refused :
  forall reqline : string,
    ~ holds "|" reqline ->
    exists msg,
      In msg [ ReqlineMessages.EMPTY_REQLINE; ReqlineMessages.MISSING_HTTP_KEYWORD;
               ReqlineMessages.MISSING_URL_KEYWORD; ReqlineMessages.MISSING_PIPE_DELIMITER ]
      /\ parseReqlineSyntax reqline = Throw (AppError msg VALIDATIONERR).
Proof.
  intros reqline Hp. unfold parseReqlineSyntax.
  destruct (String.eqb (trim reqline) ""); cbn [Errors.bind].
  - eexists. split; [|reflexivity]. simpl. auto.
  - unfold splitByPipe.
    assert (P : includes "|" (trim reqline) = false).
    { apply includes_char_false. intros H. apply Hp. now apply holds_trim. }
    rewrite P. cbn [negb].
    destruct (_ || _); cbn [negb Errors.bind throwAppError].
    + destruct (_ || _); cbn [negb Errors.bind throwAppError];
        (eexists; split; [|reflexivity]); simpl; auto.
    + eexists. split; [|reflexivity]. simpl. auto.
Qed.

Lemma reqline_without_pipe_is_refused_witness :
  exists msg,
    In msg [ ReqlineMessages.EMPTY_REQLINE; ReqlineMessages.MISSING_HTTP_KEYWORD;
             ReqlineMessages.MISSING_URL_KEYWORD; ReqlineMessages.MISSING_PIPE_DELIMITER ]
    /\ parseReqlineSyntax "HTTP GET URL https://example.com"
       = Throw (AppError msg VALIDATIONERR).
Proof.
  apply reqline_without_pipe_is_refused.
  unfold holds. simpl. intuition discriminate.
Defined.

(* ===================================================================== *)
(** * White space around the reqline and the segments *)
(* ===================================================================== *)

Lemma trimStart_white (pad : string) : allWhiteSpace pad = true -> trimStart pad = "".
Proof.
  unfold allWhiteSpace. induction pad as [|c r IH]; cbn; [reflexivity|].
  intros H. apply andb_true_iff in H as [-> H]. now apply IH.
Qed.

Lemma trimEnd_white (pad : string) : allWhiteSpace pad = true -> trimEnd pad = "".
Proof.
  unfold allWhiteSpace. induction pad as [|c r IH]; cbn; [reflexivity|].
  intros H. apply andb_true_iff in H as [-> H]. now rewrite IH.
Qed.

Lemma trimStart_app_white (pad s : string) :
  allWhiteSpace pad = true -> trimStart (pad ++ s) = trimStart s.
Proof.
  unfold allWhiteSpace. induction pad as [|c r IH]; cbn; [reflexivity|].
  intros H. apply andb_true_iff in H as [-> H]. now apply IH.
Qed.

Lemma trimEnd_app_white (s pad : string) :
  allWhiteSpace pad = true -> trimEnd (s ++ pad) = trimEnd s.
Proof.
  intros H. induction s as [|c r IH]; cbn [append trimEnd].
  - now apply trimEnd_white.
  - now rewrite IH.
Qed.

Lemma trimStart_app (s pad : string) :
  trimStart (s ++ pad) =
  match trimStart s with
  | EmptyString => trimStart pad
  | t => t ++ pad
  end.
Proof.
  induction s as [|c r IH]; cbn [append trimStart].
  - now destruct (trimStart pad).
  - destruct (isWhiteSpace c); [exact IH | reflexivity].
Qed.

Lemma trim_padding (lead s trail : string) :
  allWhiteSpace lead = true -> allWhiteSpace trail = true ->
  trim (lead ++ s ++ trail) = trim s.
Proof.
  intros Hl Ht. unfold trim. rewrite trimStart_app_white by assumption.
  rewrite trimStart_app. destruct (trimStart s) as [|c r] eqn:E.
  - now rewrite trimStart_white.
  - now apply trimEnd_app_white.
Qed.

(** X8.  White space before and after the reqline is ignored: a reqline and
    the same reqline between two runs of white space have the same result,
    the same request or the same error. *)
Theorem surrounding_white_space_is_ignored :
  forall lead reqline trail : string,
    allWhiteSpace lead = true ->
    allWhiteSpace trail = true ->
    parseReqlineSyntax (lead ++ reqline ++ trail) = parseReqlineSyntax reqline.
Proof.
  intros lead reqline trail Hl Ht. unfold parseReqlineSyntax.
  now rewrite trim_padding.
Qed.

Lemma surrounding_white_space_is_ignored_witness :
  parseReqlineSyntax ("  " ++ "HTTP GET | URL https://example.com" ++ " ")
  = parseReqlineSyntax "HTTP GET | URL https://example.com".
Proof.
  apply surrounding_white_space_is_ignored; reflexivity.
Defined.

Lemma trimEnd_idempotent (s : string) : trimEnd (trimEnd s) = trimEnd s.
Proof.
  induction s as [|c r IH]; cbn [trimEnd]; [reflexivity|].
  destruct (trimEnd r) as [|d r'] eqn:E.
  - destruct (isWhiteSpace c) eqn:W; cbn [trimEnd]; [reflexivity | now rewrite W].
  - change (trimEnd (String c (String d r')))
      with (match trimEnd (String d r') with
            | EmptyString => if isWhiteSpace c then EmptyString else String c EmptyString
            | x => String c x
            end).
    now rewrite IH.
Qed.

Lemma trimEnd_head (c : ascii) (r : string) :
  trimEnd (String c r) = "" \/ exists r', trimEnd (String c r) = String c r'.
Proof.
  cbn [trimEnd]. destruct (trimEnd r); [|eauto].
  destruct (isWhiteSpace c); eauto.
Qed.

Lemma trimStart_head (s : string) :
  trimStart s = "" \/ exists c r, trimStart s = String c r /\ isWhiteSpace c = false.
Proof.
  induction s as [|c r IH]; cbn [trimStart]; [now left|].
  destruct (isWhiteSpace c) eqn:W; [exact IH | right; eauto].
Qed.

Lemma trim_idempotent (s : string) : trim (trim s) = trim s.
Proof.
  unfold trim. destruct (trimStart_head s) as [->|(c & r & -> & W)]; [reflexivity|].
  destruct (trimEnd_head c r) as [->|(r' & E)]; [reflexivity|].
  assert (T : trimStart (trimEnd (String c r)) = trimEnd (String c r)).
  { rewrite E. cbn [trimStart]. now rewrite W. }
  rewrite T. apply trimEnd_idempotent.
Qed.

(* ===================================================================== *)
(** * The pieces that [split] returns *)
(* ===================================================================== *)

Lemma split_cons (sep c : ascii) (r : string) :
  split sep (String c r) =
  if Ascii.eqb c sep then EmptyString :: split sep r else consHead c (split sep r).
Proof. reflexivity. Qed.

Lemma split_nonempty (sep : ascii) (s : string) : split sep s <> [].
Proof. rewrite split_piecesBy. apply piecesBy_nonempty. Qed.

Lemma split_app_sep (sep : ascii) (a b : string) :
  split sep (a ++ String sep b) = (split sep a ++ split sep b)%list.
Proof.
  induction a as [|c a IH]; cbn [append].
  - rewrite split_cons, Ascii.eqb_refl. reflexivity.
  - rewrite !split_cons, IH. destruct (Ascii.eqb c sep); [reflexivity|].
    apply consHead_app, split_nonempty.
Qed.

Lemma split_no_sep (sep : ascii) (s : string) : ~ holds sep s -> split sep s = [s].
Proof.
  unfold holds. induction s as [|c r IH]; cbn [list_ascii_of_string]; [reflexivity|].
  intros H. rewrite split_cons. destruct (Ascii.eqb_spec c sep) as [->|_].
  - exfalso. apply H. now left.
  - rewrite IH; [reflexivity|]. intros Hin. apply H. now right.
Qed.

Lemma consHead_length (c : ascii) (l : list string) :
  l <> [] -> List.length (consHead c l) = List.length l.
Proof. destruct l; [contradiction | reflexivity]. Qed.

Lemma split_length (sep : ascii) (s : string) :
  List.length (split sep s) = S (occurrences sep s).
Proof.
  induction s as [|c r IH]; [reflexivity|].
  rewrite split_cons. cbn [occurrences]. destruct (Ascii.eqb c sep).
  - cbn [List.length]. now rewrite IH.
  - rewrite consHead_length by apply split_nonempty. exact IH.
Qed.

(** No piece holds the separator. *)
Lemma split_pieces_hold_no_sep (sep : ascii) (s x : string) :
  In x (split sep s) -> ~ holds sep x.
Proof.
  unfold holds. revert x. induction s as [|c r IH]; intros x.
  - intros [<-|[]]. simpl. tauto.
  - rewrite split_cons. destruct (Ascii.eqb_spec c sep) as [->|Hne].
    + intros [<-|H]; [simpl; tauto | now apply IH].
    + pose proof (split_nonempty sep r) as N.
      destruct (split sep r) as [|h t]; [contradiction|]. cbn [consHead].
      intros [<-|H].
      * cbn [list_ascii_of_string]. intros [E|E]; [congruence|].
        apply (IH h); [now left | exact E].
      * apply IH. now right.
Qed.

(** The first piece is the text up to the first separator. *)
Lemma split_first_piece (sep : ascii) (s : string) :
  exists post, s = hd EmptyString (split sep s) ++ post
               /\ (post = "" \/ exists q, post = String sep q).
Proof.
  induction s as [|c r (post & E & Hp)].
  - exists "". split; [reflexivity | now left].
  - rewrite split_cons. destruct (Ascii.eqb_spec c sep) as [->|_].
    + exists (String sep r). split; [reflexivity | right; eauto].
    + pose proof (split_nonempty sep r) as N.
      destruct (split sep r) as [|h t]; [contradiction|]. cbn [consHead hd] in *.
      exists post. split; [cbn [append]; now rewrite <- E | exact Hp].
Qed.

Lemma split_single (sep : ascii) (s h : string) : split sep s = [h] -> s = h.
Proof.
  revert h; induction s as [|c r IH]; intros h.
  - now intros [= <-].
  - rewrite split_cons. pose proof (split_nonempty sep r) as N.
    destruct (Ascii.eqb c sep).
    + destruct (split sep r); [contradiction | discriminate].
    + destruct (split sep r) as [|h' t]; [contradiction|]. cbn [consHead].
      intros [= <- ->]. now rewrite (IH h' eq_refl).
Qed.

(** The last piece is the text after the last separator. *)
Lemma split_last_piece (sep : ascii) (s : string) :
  exists pre, s = pre ++ last (split sep s) EmptyString.
Proof.
  induction s as [|c r (pre & E)].
  - now exists "".
  - rewrite split_cons. pose proof (split_nonempty sep r) as N.
    destruct (Ascii.eqb c sep).
    + exists (String c pre). destruct (split sep r) as [|h t]; [contradiction|].
      cbn [append last] in *. f_equal. exact E.
    + destruct (split sep r) as [|h [|h2 t]] eqn:Sp; [contradiction| |].
      * exists "". cbn. now rewrite (split_single _ _ _ Sp).
      * exists (String c pre). cbn [append last consHead] in *. f_equal. exact E.
Qed.

(** The piece after a separator, and the text that follows this
    separator. *)
Lemma split_piece_right (sep : ascii) (s : string) :
  forall (j : nat) (x : string),
    nth_error (split sep s) (S j) = Some x ->
    exists a b post, s = a ++ String sep b /\ b = x ++ post
                     /\ (post = "" \/ exists q, post = String sep q).
Proof.
  induction s as [|c r IH]; intros j x.
  - destruct j; discriminate.
  - rewrite split_cons. destruct (Ascii.eqb_spec c sep) as [->|_].
    + cbn [nth_error]. destruct j as [|j].
      * intros H. destruct (split_first_piece sep r) as (post & E & Hp).
        exists "", r, post. split; [reflexivity|]. split; [|exact Hp].
        destruct (split sep r); [discriminate|]. cbn in H, E. now injection H as <-.
      * intros H. destruct (IH _ _ H) as (a & b & post & -> & Hb & Hp).
        exists (String sep a), b, post. auto.
    + pose proof (split_nonempty sep r) as N.
      destruct (split sep r) as [|h t] eqn:Sp; [contradiction|]. cbn [consHead nth_error].
      intros H. destruct (IH j x H) as (a & b & post & -> & Hb & Hp).
      exists (String c a), b, post. auto.
Qed.

(** A piece before a separator, and the text that precedes this
    separator. *)
Lemma split_piece_left (sep : ascii) (s : string) :
  forall (j : nat) (x : string),
    nth_error (split sep s) j = Some x ->
    (S j < List.length (split sep s))%nat ->
    exists a b pre, s = a ++ String sep b /\ a = pre ++ x
                    /\ ((j = O /\ pre = "") \/ (j <> O /\ exists p, pre = p ++ String sep "")).
Proof.
  induction s as [|c r IH]; intros j x.
  - cbn. lia.
  - rewrite split_cons. destruct (Ascii.eqb_spec c sep) as [->|Hne].
    + cbn [nth_error List.length]. destruct j as [|j].
      * intros [= <-] _. exists "", r, "". split; [reflexivity|]. split; [reflexivity|].
        now left.
      * intros H L. destruct (IH j x H ltac:(lia)) as (a & b & pre & -> & -> & Hp).
        exists (String sep (pre ++ x)), b, (String sep pre).
        split; [reflexivity|]. split; [reflexivity|]. right. split; [discriminate|].
        destruct Hp as [[_ ->]|[_ [p ->]]]; [now exists "" | now exists (String sep p)].
    + pose proof (split_nonempty sep r) as N.
      destruct (split sep r) as [|h t] eqn:Sp; [contradiction|].
      cbn [consHead nth_error List.length]. destruct j as [|j].
      * intros [= <-] L.
        destruct (IH O h eq_refl ltac:(cbn; lia)) as (a & b & pre & -> & -> & Hp).
        destruct Hp as [[_ ->]|[Hc _]]; [|contradiction].
        exists (String c h), b, "". split; [reflexivity|]. split; [reflexivity|]. now left.
      * intros H L.
        destruct (IH (S j) x H ltac:(cbn; lia)) as (a & b & pre & -> & -> & Hp).
        destruct Hp as [[Hc _]|[_ [p ->]]]; [discriminate|].
        exists (String c ((p ++ String sep "") ++ x)), b, (String c (p ++ String sep "")).
        split; [reflexivity|]. split; [reflexivity|]. right. split; [discriminate|].
        now exists (String c p).
Qed.

Lemma append_snoc_inj (u v : string) (c d : ascii) :
  u ++ String c "" = v ++ String d "" -> u = v /\ c = d.
Proof.
  revert v; induction u as [|x u IH]; intros [|y v]; cbn.
  - now intros [= ->].
  - destruct v; discriminate.
  - destruct u; discriminate.
  - intros [= -> H]. destruct (IH _ H) as [-> ->]. auto.
Qed.

Lemma string_snoc (s : string) : s = "" \/ exists s' c, s = s' ++ String c "".
Proof.
  induction s as [|x r [->|(s' & c & ->)]]; [now left | right | right].
  - now exists "", x.
  - now exists (String x s'), c.
Qed.

(** [endsWith] and [startsWith] for one code unit. *)
Lemma endsWith_char (c : ascii) (s : string) :
  endsWith (String c "") s = true <-> exists pre, s = pre ++ String c "".
Proof.
  unfold endsWith. cbn [String.length]. split.
  - intros H. apply andb_true_iff in H as [L E].
    apply Nat.leb_le in L. apply String.eqb_eq in E.
    exists (take (String.length s - 1) s). rewrite <- E. symmetry. apply take_drop.
  - intros [pre ->]. rewrite length_append. cbn [String.length].
    replace (String.length pre + 1 - 1)%nat with (String.length pre) by lia.
    rewrite drop_append, String.eqb_refl.
    destruct (Nat.leb_spec 1 (String.length pre + 1)); [reflexivity | lia].
Qed.

Lemma startsWith_char (c : ascii) (s : string) :
  startsWith (String c "") s = true <-> exists post, s = String c post.
Proof.
  unfold startsWith. rewrite prefix_char. destruct s as [|d r].
  - split; [discriminate | intros [post H]; discriminate].
  - split.
    + intros H. apply Ascii.eqb_eq in H. subst. eauto.
    + intros [post [= -> _]]. apply Ascii.eqb_refl.
Qed.

(* ===================================================================== *)
(** * The check of the spaces at the pipes *)
(* ===================================================================== *)

Lemma checkSpacing_cases (count index : nat) (piece : string) :
  checkSpacing count tt piece index =
  if badSpacing count index piece
  then Throw (AppError ReqlineMessages.INVALID_SPACING_AROUND_PIPE VALIDATIONERR)
  else Ok tt.
Proof.
  unfold checkSpacing, badSpacing.
  destruct ((0 <? index)%nat && negb (startsWith " " piece)); [reflexivity|].
  cbn [Errors.bind orb]. destruct (_ && _); reflexivity.
Qed.

Lemma forEach_checkSpacing (count : nat) (pieces : list string) :
  forall index : nat,
    (forEach (checkSpacing count) pieces index tt = Ok tt
     /\ forall j x, nth_error pieces j = Some x -> badSpacing count (index + j) x = false)
    \/ (forEach (checkSpacing count) pieces index tt
        = Throw (AppError ReqlineMessages.INVALID_SPACING_AROUND_PIPE VALIDATIONERR)
        /\ exists j x, nth_error pieces j = Some x /\ badSpacing count (index + j) x = true).
Proof.
  induction pieces as [|p l IH]; intros index.
  - left. split; [reflexivity|]. intros [|j] x; discriminate.
  - cbn [forEach]. rewrite checkSpacing_cases.
    destruct (badSpacing count index p) eqn:B.
    + right. split; [reflexivity|]. exists O, p. now rewrite Nat.add_0_r.
    + cbn [Errors.bind]. destruct (IH (S index)) as [[E H]|[E (j & x & Hj & Hb)]].
      * left. split; [exact E|]. intros [|j] x; cbn [nth_error].
        -- intros [= <-]. now rewrite Nat.add_0_r.
        -- intros Hj. rewrite Nat.add_succ_r. now apply H.
      * right. split; [exact E|]. exists (S j), x. split; [exact Hj|].
        now rewrite Nat.add_succ_r.
Qed.

Lemma nth_error_last {A : Type} (l : list A) (d : A) :
  l <> [] -> nth_error l (List.length l - 1) = Some (last l d).
Proof.
  induction l as [|x l IH]; [contradiction|]. intros _.
  destruct l as [|y l]; [reflexivity|].
  specialize (IH ltac:(discriminate)).
  change (last (x :: y :: l) d) with (last (y :: l) d). rewrite <- IH.
  cbn [List.length].
  replace (S (S (List.length l)) - 1)%nat with (S (S (List.length l) - 1)) by lia.
  reflexivity.
Qed.

(** With a pipe in the text, [splitByPipe] ends normally exactly when every
    pipe has a space on both sides. *)
Lemma splitByPipe_spaced (str : string) :
  holds "|" str ->
  (pipesSpaced str -> splitByPipe str = Ok (map trim (split "|" str)))
  /\ (splitByPipe str = Ok (map trim (split "|" str)) -> pipesSpaced str)
  /\ (splitByPipe str = Ok (map trim (split "|" str))
      \/ splitByPipe str
         = Throw (AppError ReqlineMessages.INVALID_SPACING_AROUND_PIPE VALIDATIONERR)).
Proof.
  intros Hp. apply includes_char in Hp. unfold splitByPipe. rewrite Hp. cbn [negb].
  destruct (forEach_checkSpacing (List.length (split "|" str)) (split "|" str) O)
    as [[E H]|[E (j & x & Hj & Hb)]]; rewrite E; cbn [Errors.bind].
  - split; [reflexivity|]. split; [|now left]. intros _ a b Hs.
    rewrite Hs in H. rewrite !split_app_sep, length_app in H.
    pose proof (split_nonempty "|" a) as Na. pose proof (split_nonempty "|" b) as Nb.
    split.
    + destruct (split_last_piece "|" a) as [pre Ea].
      assert (B : badSpacing (List.length (split "|" a) + List.length (split "|" b))
                    (List.length (split "|" a) - 1) (last (split "|" a) "") = false).
      { apply (H (List.length (split "|" a) - 1)%nat).
        rewrite nth_error_app1 by (destruct (split "|" a); [contradiction | cbn; lia]).
        now apply nth_error_last. }
      unfold badSpacing in B. apply orb_false_iff in B as [_ B].
      assert (L : (List.length (split "|" a) - 1
                   <? List.length (split "|" a) + List.length (split "|" b) - 1)%nat = true).
      { apply Nat.ltb_lt. destruct (split "|" a); [contradiction|].
        destruct (split "|" b); [contradiction|]. cbn [List.length]. lia. }
      rewrite L in B. cbn [andb] in B. apply negb_false_iff, endsWith_char in B as [q Eq].
      exists (pre ++ q). rewrite Ea at 1. rewrite Eq. now rewrite append_assoc.
    + destruct (split_first_piece "|" b) as (post & Eb & _).
      assert (B : badSpacing (List.length (split "|" a) + List.length (split "|" b))
                    (List.length (split "|" a)) (hd "" (split "|" b)) = false).
      { replace (List.length (split "|" a)) with (0 + List.length (split "|" a))%nat at 2 by lia.
        apply (H (List.length (split "|" a))).
        rewrite nth_error_app2 by lia. rewrite Nat.sub_diag.
        destruct (split "|" b); [contradiction | reflexivity]. }
      unfold badSpacing in B. apply orb_false_iff in B as [B _].
      assert (L : (0 <? List.length (split "|" a))%nat = true).
      { apply Nat.ltb_lt. destruct (split "|" a); [contradiction | cbn; lia]. }
      rewrite L in B. cbn [andb] in B. apply negb_false_iff, startsWith_char in B as [q Eq].
      exists (q ++ post). rewrite Eb at 1. now rewrite Eq.
  - split; [|split; [discriminate | now right]]. intros Sp. exfalso.
    cbn [Nat.add] in Hb. unfold badSpacing in Hb. apply orb_true_iff in Hb as [Hb|Hb];
      apply andb_true_iff in Hb as [L Hb]; apply negb_true_iff in Hb.
    + apply Nat.ltb_lt in L. destruct j as [|j]; [lia|].
      destruct (split_piece_right "|" str j x Hj) as (a & b & post & Hs & Hb' & Hpost).
      destruct (Sp a b Hs) as [_ [b' E']].
      assert (S1 : startsWith " " x = true); [|congruence].
      apply startsWith_char. rewrite Hb' in E'. destruct x as [|c x'].
      * cbn in E'. destruct Hpost as [->|[q ->]]; discriminate.
      * cbn in E'. injection E' as -> _. eauto.
    + apply Nat.ltb_lt in L.
      destruct (split_piece_left "|" str j x Hj ltac:(lia)) as (a & b & pre & Hs & Ha & Hpre).
      destruct (Sp a b Hs) as [[a' E'] _].
      assert (S1 : endsWith " " x = true); [|congruence].
      apply endsWith_char. rewrite Ha in E'.
      destruct (string_snoc x) as [->|(x' & c & ->)].
      * rewrite append_empty_r in E'.
        destruct Hpre as [[_ ->]|[_ [p ->]]].
        -- destruct a'; discriminate.
        -- apply append_snoc_inj in E' as [_ [=]].
      * rewrite <- append_assoc in E'. apply append_snoc_inj in E' as [_ ->]. eauto.
Qed.

(** X9.  For a text that holds a pipe, [splitByPipe] returns the trimmed
    pieces exactly when every pipe of the text has a space right before it
    and a space right after it; otherwise it fails with "Invalid spacing
    around pipe delimiter". *)
Theorem splitByPipe_accepts_spaced_pipes :
  forall str : string,
    holds "|" str ->
    (splitByPipe str = Ok (map trim (split "|" str)) <-> pipesSpaced str)
    /\ (~ pipesSpaced str ->
        splitByPipe str
        = Throw (AppError ReqlineMessages.INVALID_SPACING_AROUND_PIPE VALIDATIONERR)).
Proof.
  intros str Hp. destruct (splitByPipe_spaced str Hp) as (A & B & C).
  split; [split; assumption|]. intros N. destruct C as [C|C]; [|exact C].
  exfalso. apply N, B, C.
Qed.

Lemma splitByPipe_accepts_spaced_pipes_witness :
  (splitByPipe "HTTP GET | URL x" = Ok (map trim (split "|" "HTTP GET | URL x"))
   <-> pipesSpaced "HTTP GET | URL x")
  /\ (~ pipesSpaced "HTTP GET | URL x" ->
      splitByPipe "HTTP GET | URL x"
      = Throw (AppError ReqlineMessages.INVALID_SPACING_AROUND_PIPE VALIDATIONERR)).
Proof.
  apply splitByPipe_accepts_spaced_pipes. unfold holds. simpl. tauto.
Defined.

Lemma occurrences_holds (c : ascii) (s : string) : holds c s -> (1 <= occurrences c s)%nat.
Proof.
  unfold holds. induction s as [|d r IH]; cbn; [tauto|].
  destruct (Ascii.eqb_spec d c); [lia|]. intros [E|H]; [congruence | auto].
Qed.

(** X10.  The segments that [splitByPipe] returns are one more than the
    pipes of the text, so at least two; none holds a pipe, and each is
    trimmed (trimming it again changes nothing). *)
Theorem splitByPipe_segments :
  forall (str : string) (segments : list string),
    splitByPipe str = Ok segments ->
    List.length segments = S (occurrences "|" str)
    /\ (2 <= List.length segments)%nat
    /\ forall segment, In segment segments ->
                       ~ holds "|" segment /\ trim segment = segment.
Proof.
  intros str segments H. apply splitByPipe_Ok in H as [Hp ->].
  apply includes_char in Hp. rewrite length_map, split_length.
  split; [reflexivity|]. split; [apply occurrences_holds in Hp; lia|].
  intros segment Hin. apply in_map_iff in Hin as (x & <- & Hx). split.
  - intros Hh. apply holds_trim in Hh. now apply (split_pieces_hold_no_sep "|" str x).
  - apply trim_idempotent.
Qed.

Lemma splitByPipe_segments_witness :
  List.length ["HTTP GET"; "URL x"; "BODY 1"] = S (occurrences "|" "HTTP GET | URL x | BODY 1")
  /\ (2 <= List.length ["HTTP GET"; "URL x"; "BODY 1"])%nat
  /\ forall segment, In segment ["HTTP GET"; "URL x"; "BODY 1"] ->
                     ~ holds "|" segment /\ trim segment = segment.
Proof.
  apply (splitByPipe_segments "HTTP GET | URL x | BODY 1"). reflexivity.
Defined.

(* ===================================================================== *)
(** * The shortest reqlines *)
(* ===================================================================== *)

Lemma trimEnd_app_fixed (a b : string) :
  trimEnd b = b -> b <> "" -> trimEnd (a ++ b) = a ++ b.
Proof.
  intros Hb Hne. induction a as [|c a IH]; [exact Hb|].
  cbn [append trimEnd]. rewrite IH.
  destruct (a ++ b) eqn:E; [|reflexivity].
  destruct a; [cbn in E; contradiction | discriminate].
Qed.

Lemma indexOf_skip (pat : string) (c : ascii) (r : string) :
  prefix pat (String c r) = false ->
  indexOf pat r = -1 -> indexOf pat (String c r) = -1.
Proof. intros P H. cbn [indexOf]. now rewrite P, H. Qed.

(** The segment [URL <url>] of a well-formed URL without two spaces in a
    row has none either. *)
Lemma no_two_spaces_in_url_segment (url : string) :
  wellFormedUrl url -> indexOf "  " url = -1 -> indexOf "  " ("URL " ++ url) = -1.
Proof.
  intros (rest & _ & [->| ->]) H;
    do 4 (apply indexOf_skip; [reflexivity|]); exact H.
Qed.

Lemma wellFormedUrl_nonempty (url : string) : wellFormedUrl url -> url <> "".
Proof. intros (rest & _ & [->| ->]); discriminate. Qed.

(** The two segments [HTTP <method>] and [URL <url>]. *)
Lemma parseSegments_http_url (m url : string) :
  m = "GET" \/ m = "POST" ->
  wellFormedUrl url ->
  indexOf "  " url = -1 ->
  parseSegments ["HTTP " ++ m; "URL " ++ url]
  = Ok (mkParsedRequest (Some m) (Some url) (JObj []) (JObj []) (JObj [])).
Proof.
  intros Hm Hw Hsp.
  assert (P : parseSegmentParts ("URL" ++ " " ++ url) = Ok ("URL", url)).
  { rewrite parseSegmentParts_keyword by reflexivity.
    change ("URL" ++ " " ++ url) with ("URL " ++ url).
    rewrite (no_two_spaces_in_url_segment url Hw Hsp). reflexivity. }
  apply validateUrl_iff in Hw.
  unfold parseSegments, scanSegments. cbn [forEach].
  assert (H1 : parseSegment initialScan ("HTTP " ++ m) 0
               = Ok (mkScan (setMethod (result initialScan) m) true false))
    by (destruct Hm as [->| ->]; reflexivity).
  rewrite H1. cbn [Errors.bind].
  change ("URL " ++ url) with ("URL" ++ " " ++ url).
  rewrite (parseSegment_parts _ _ _ _ 1 P). cbn. rewrite Hw. reflexivity.
Qed.

(** A text with one pipe, a space before it and a space after it. *)
Lemma splitByPipe_two (a b : string) :
  ~ holds "|" a -> ~ holds "|" b ->
  (exists a', a = a' ++ " ") -> (exists b', b = String " " b') ->
  splitByPipe (a ++ String "|" b) = Ok [trim a; trim b].
Proof.
  intros Na Nb Ha Hb.
  assert (Hh : holds "|" (a ++ String "|" b)).
  { unfold holds. clear. induction a as [|c r IH]; simpl; auto. }
  destruct (splitByPipe_spaced _ Hh) as (A & _ & _). rewrite A.
  - now rewrite split_app_sep, (split_no_sep _ _ Na), (split_no_sep _ _ Nb).
  - intros a2 b2 Hs.
    assert (a2 = a /\ b2 = b) as [-> ->]; [|auto].
    assert (Sa : split "|" (a2 ++ String "|" b2) = [a; b]).
    { now rewrite <- Hs, split_app_sep, (split_no_sep _ _ Na), (split_no_sep _ _ Nb). }
    rewrite split_app_sep in Sa.
    pose proof (split_nonempty "|" a2) as N2. pose proof (split_nonempty "|" b2) as N3.
    destruct (split "|" a2) as [|x1 [|x2 ta]] eqn:Ea; [contradiction| |].
    + destruct (split "|" b2) as [|y1 [|y2 tb]] eqn:Eb; [contradiction| |discriminate].
      injection Sa as <- <-.
      split; [now apply (split_single "|") | now apply (split_single "|")].
    + destruct (split "|" b2); [contradiction|]. destruct ta; discriminate.
Qed.

(** X11.  The shortest reqlines are accepted: for the method GET or POST
    and a well-formed URL that holds no pipe, no run of two spaces and no
    white space at its end, [HTTP <method> | URL <url>] parses to the
    request with that method and that URL and with empty headers, query
    and body. *)
Theorem http_and_url_alone_are_accepted :
  forall m url : string,
    m = "GET" \/ m = "POST" ->
    wellFormedUrl url ->
    ~ holds "|" url ->
    indexOf "  " url = -1 ->
    trimEnd url = url ->
    parseReqlineSyntax ("HTTP " ++ m ++ " | URL " ++ url)
    = Ok (mkParsedRequest (Some m) (Some url) (JObj []) (JObj []) (JObj [])).
Proof.
  intros m url Hm Hw Hp Hsp Ht.
  pose proof (wellFormedUrl_nonempty url Hw) as Hne.
  assert (Tu : trimEnd ("URL " ++ url) = "URL " ++ url) by now apply trimEnd_app_fixed.
  assert (Np : ~ holds "|" (" URL " ++ url)).
  { unfold holds in *. simpl. intuition discriminate. }
  assert (R : forall a, trimStart (a ++ String "|" (" URL " ++ url))
                        = a ++ String "|" (" URL " ++ url) ->
                        ~ holds "|" a -> (exists a', a = a' ++ " ") ->
                        parseReqlineSyntax (a ++ String "|" (" URL " ++ url))
                        = (parsed <- parseSegments [trim a; "URL " ++ url] ;; Ok parsed)).
  { intros a Hs Na Ha.
    assert (T : trim (a ++ String "|" (" URL " ++ url)) = a ++ String "|" (" URL " ++ url)).
    { unfold trim. rewrite Hs.
      replace (a ++ String "|" (" URL " ++ url)) with ((a ++ "| URL ") ++ url)
        by (rewrite append_assoc; reflexivity).
      now apply trimEnd_app_fixed. }
    unfold parseReqlineSyntax. cbv zeta. rewrite T.
    replace (String.eqb (a ++ String "|" (" URL " ++ url)) "") with false
      by (destruct a; reflexivity).
    cbn [Errors.bind].
    rewrite (splitByPipe_two a (" URL " ++ url) Na Np Ha
               (ex_intro _ ("URL " ++ url) eq_refl)).
    cbn [Errors.bind].
    assert (Tv : trim (" URL " ++ url) = "URL " ++ url) by exact Tu.
    now rewrite Tv. }
  destruct Hm as [->| ->].
  - change ("HTTP " ++ "GET" ++ " | URL " ++ url)
      with ("HTTP GET " ++ String "|" (" URL " ++ url)).
    rewrite (R "HTTP GET " eq_refl).
    + change (trim "HTTP GET ") with ("HTTP " ++ "GET").
      rewrite parseSegments_http_url; auto.
    + unfold holds. simpl. intuition discriminate.
    + now exists "HTTP GET".
  - change ("HTTP " ++ "POST" ++ " | URL " ++ url)
      with ("HTTP POST " ++ String "|" (" URL " ++ url)).
    rewrite (R "HTTP POST " eq_refl).
    + change (trim "HTTP POST ") with ("HTTP " ++ "POST").
      rewrite parseSegments_http_url; auto.
    + unfold holds. simpl. intuition discriminate.
    + now exists "HTTP POST".
Qed.

Lemma http_and_url_alone_are_accepted_witness :
  parseReqlineSyntax ("HTTP " ++ "POST" ++ " | URL " ++ "http://localhost:8811/a b?x=1")
  = Ok (mkParsedRequest (Some "POST") (Some "http://localhost:8811/a b?x=1")
          (JObj []) (JObj []) (JObj [])).
Proof.
  apply http_and_url_alone_are_accepted.
  - now right.
  - exists "localhost:8811/a b?x=1". split; [discriminate | now left].
  - unfold holds. simpl. intuition discriminate.
  - reflexivity.
  - reflexivity.
Defined.

(* ===================================================================== *)
(** * Further properties of the executor *)
(* ===================================================================== *)

Lemma nativeOnly_Ok (engine : Engine) {A : Type} (a : A) : nativeOnly engine (Ok a).
Proof. intros e; discriminate. Qed.

Lemma nativeOnly_nativeError (engine : Engine) {A : Type} (k : NativeKind) :
  nativeOnly engine (@nativeError engine A k).
Proof. intros e [= <-]. now exists k. Qed.

Lemma nativeOnly_bind (engine : Engine) {A B : Type} (c : M A) (k : A -> M B) :
  nativeOnly engine c -> (forall a, nativeOnly engine (k a)) ->
  nativeOnly engine (Errors.bind c k).
Proof.
  intros Hc Hk e. destruct c as [a|e']; cbn.
  - apply Hk.
  - intros [= <-]. now apply Hc.
Qed.

Lemma nativeOnly_encodeURIComponentString (engine : Engine) (n : nat) :
  forall s : ustring, (List.length s <= n)%nat ->
                      nativeOnly engine (encodeURIComponentString engine s).
Proof.
  induction n as [|n IH]; intros s Hn.
  - destruct s; [apply nativeOnly_Ok | cbn in Hn; lia].
  - destruct s as [|c r]; [apply nativeOnly_Ok|]. cbn [List.length] in Hn.
    cbn [encodeURIComponentString].
    destruct (isUnreserved c).
    + apply nativeOnly_bind; [apply IH; lia | intros; apply nativeOnly_Ok].
    + destruct (isLowSurrogate c); [apply nativeOnly_nativeError|].
      destruct (isHighSurrogate c).
      * destruct r as [|c2 r']; [apply nativeOnly_nativeError|].
        destruct (isLowSurrogate c2); [|apply nativeOnly_nativeError].
        cbn [List.length] in Hn.
        apply nativeOnly_bind; [apply IH; lia | intros; apply nativeOnly_Ok].
      * apply nativeOnly_bind; [apply IH; lia | intros; apply nativeOnly_Ok].
Qed.

Lemma nativeOnly_mapM (engine : Engine) {A B : Type} (f : A -> M B) (l : list A) :
  (forall x, nativeOnly engine (f x)) -> nativeOnly engine (mapM f l).
Proof.
  intros Hf. induction l as [|x l IH]; cbn [mapM]; [apply nativeOnly_Ok|].
  apply nativeOnly_bind; [apply Hf | intros y].
  apply nativeOnly_bind; [exact IH | intros; apply nativeOnly_Ok].
Qed.

Lemma nativeOnly_Object_entries (engine : Engine) (v : json) :
  nativeOnly engine (Object_entries engine v).
Proof. destruct v; try apply nativeOnly_Ok. apply nativeOnly_nativeError. Qed.

(** What [buildFullUrl] throws is an error of the engine. *)
Lemma nativeOnly_buildFullUrl (engine : Engine) (base : option string) (q : json) :
  nativeOnly engine (buildFullUrl engine base q).
Proof.
  unfold buildFullUrl. apply nativeOnly_bind.
  - destruct (negb _); [apply nativeOnly_Ok|]. unfold Object_keys.
    apply nativeOnly_bind; [|intros; apply nativeOnly_Ok].
    apply nativeOnly_bind; [apply nativeOnly_Object_entries | intros; apply nativeOnly_Ok].
  - intros [|]; [apply nativeOnly_Ok|].
    apply nativeOnly_bind; [apply nativeOnly_Object_entries | intros entries].
    apply nativeOnly_bind.
    + apply nativeOnly_mapM. intros kv. unfold encodePair, encodeURIComponent.
      apply nativeOnly_bind; [eapply nativeOnly_encodeURIComponentString, le_n | intros k].
      apply nativeOnly_bind; [eapply nativeOnly_encodeURIComponentString, le_n | intros v].
      apply nativeOnly_Ok.
    + intros pairs. destruct base; [apply nativeOnly_Ok | apply nativeOnly_nativeError].
Qed.

(** What the [try] block throws before the response is read: an error of
    the engine from [buildFullUrl], or the rejection of the HTTP client
    once the URL was built. *)
Lemma dispatch_throws (engine : Engine) (w : World) (parsedRequest : ParsedRequest)
      (e : Exception) :
  dispatch engine w parsedRequest = Throw e ->
  (exists k, e = NativeError (nativeMessage engine k))
  \/ (exists m r fullUrl,
         e = HttpError m r
         /\ buildFullUrl engine (url parsedRequest) (query parsedRequest) = Ok fullUrl).
Proof.
  unfold dispatch.
  destruct (buildFullUrl engine (url parsedRequest) (query parsedRequest)) as [fullUrl|x] eqn:B.
  - cbn [Errors.bind]. intros H. right.
    destruct (isMethod "GET" (method parsedRequest)).
    + destruct (HttpRequest_get w _ _) as [resp|m r]; [discriminate|].
      cbn in H. injection H as <-. eauto.
    + destruct (isMethod "POST" (method parsedRequest)); [|discriminate].
      destruct (HttpRequest_post w _ _ _) as [resp|m r]; [discriminate|].
      cbn in H. injection H as <-. eauto.
  - cbn [Errors.bind]. intros [= <-]. left. now apply (nativeOnly_buildFullUrl _ _ _ _ B).
Qed.

(** What [executeRequest] throws is an execution failure. *)
Lemma executeRequest_Throw_inv (engine : Engine) (w : World) (parsedRequest : ParsedRequest)
      (e : Exception) :
  executeRequest engine w parsedRequest = Throw e -> isExecutionFailure e.
Proof.
  revert e. set (pr := parsedRequest). intros e. unfold executeRequest, isExecutionFailure.
  destruct (dispatch engine w pr) as [[fullUrl [resp|]]|x] eqn:D.
  - discriminate.
  - unfold catchBlock. cbn. intros [= <-]. eauto.
  - unfold catchBlock.
    destruct (dispatch_throws _ _ _ _ D) as [[k ->]|(m & r & fullUrl & -> & B)].
    + cbn. intros [= <-]. eauto.
    + cbn [Errors.response]. destruct r as [er|].
      * rewrite B. cbn. discriminate.
      * cbn. intros [= <-]. eauto.
Qed.

(** X12.  Whatever [executeRequest] throws is an application error of kind
    [APPERR] whose message starts with "Request execution failed: "; no
    error of the engine and no rejection of the HTTP client leaves it as it
    is. *)
Theorem executeRequest_throws_only_execution_failures :
  forall (engine : Engine) (w : World) (parsedRequest : ParsedRequest) (e : Exception),
    executeRequest engine w parsedRequest = Throw e ->
    exists m, e = AppError ("Request execution failed: " ++ m) APPERR.
Proof.
  intros engine w parsedRequest e H.
  exact (executeRequest_Throw_inv engine w parsedRequest e H).
Qed.

Lemma executeRequest_throws_only_execution_failures_witness :
  exists m,
    AppError "Request execution failed: timeout" APPERR
    = AppError ("Request execution failed: " ++ m) APPERR.
Proof.
  apply (executeRequest_throws_only_execution_failures sampleEngine
           (constantWorld (Rejected "timeout" None) 1000 7) roundtripRequest).
  reflexivity.
Defined.

(** X13.  Every result of [executeRequest] gives back the query, the body
    and the headers of the request as they are, and its [full_url] is what
    [buildFullUrl] makes of the URL and the query of the request. *)
Theorem executeRequest_result_echoes_request :
  forall (engine : Engine) (w : World) (parsedRequest : ParsedRequest) (r : ExecutionResult),
    executeRequest engine w parsedRequest = Ok r ->
    request_query (request r) = query parsedRequest
    /\ request_body (request r) = body parsedRequest
    /\ request_headers (request r) = headers parsedRequest
    /\ buildFullUrl engine (url parsedRequest) (query parsedRequest)
       = Ok (full_url (request r)).
Proof.
  intros engine w pr r. unfold executeRequest.
  destruct (dispatch engine w pr) as [[fullUrl [resp|]]|x] eqn:D.
  - intros [= <-]. cbn. repeat split.
    unfold dispatch in D.
    destruct (buildFullUrl engine (url pr) (query pr)) as [u0|]; [|discriminate].
    cbn [Errors.bind] in D.
    destruct (isMethod "GET" (method pr)).
    + destruct (await _); [|discriminate]. cbn in D. now injection D as -> _.
    + destruct (isMethod "POST" (method pr)).
      * destruct (await _); [|discriminate]. cbn in D. now injection D as -> _.
      * discriminate.
  - unfold catchBlock. cbn. discriminate.
  - unfold catchBlock. destruct (Errors.response x); [|cbn; discriminate].
    destruct (buildFullUrl engine (url pr) (query pr)) as [u0|]; [|discriminate].
    cbn. intros [= <-]. cbn. auto.
Qed.

Lemma executeRequest_result_echoes_request_witness :
  request_query (mkRequestInfo queryA1 (JObj []) (JObj []) (Some "https://example.com?a=1"))
  = query roundtripRequest
  /\ request_body (mkRequestInfo queryA1 (JObj []) (JObj []) (Some "https://example.com?a=1"))
     = body roundtripRequest
  /\ request_headers (mkRequestInfo queryA1 (JObj []) (JObj []) (Some "https://example.com?a=1"))
     = headers roundtripRequest
  /\ buildFullUrl sampleEngine (url roundtripRequest) (query roundtripRequest)
     = Ok (full_url (mkRequestInfo queryA1 (JObj []) (JObj []) (Some "https://example.com?a=1"))).
Proof.
  exact (executeRequest_result_echoes_request sampleEngine
           (constantWorld (Resolved (mkHttpResponse None None None)) 1000 7)
           roundtripRequest
           (mkExecutionResult
              (mkRequestInfo queryA1 (JObj []) (JObj []) (Some "https://example.com?a=1"))
              (mkResponseInfo (Some 200) 7 1000 1007 None))
           eq_refl).
Defined.

(** X14.  For a request whose method is neither GET nor POST,
    [executeRequest] throws an execution failure that carries a message of
    the engine, and the HTTP client plays no part in it: the outcome is the
    same in every world. *)
Theorem executeRequest_other_method_fails_without_call :
  forall (engine : Engine) (w w' : World) (parsedRequest : ParsedRequest),
    isMethod "GET" (method parsedRequest) = false ->
    isMethod "POST" (method parsedRequest) = false ->
    executeRequest engine w parsedRequest = executeRequest engine w' parsedRequest
    /\ exists k,
         executeRequest engine w parsedRequest
         = Throw (AppError ("Request execution failed: " ++ nativeMessage engine k) APPERR).
Proof.
  intros engine w w' pr G P. unfold executeRequest, dispatch. rewrite G, P.
  destruct (buildFullUrl engine (url pr) (query pr)) as [fullUrl|x] eqn:B; cbn [Errors.bind].
  - unfold catchBlock. cbn. split; [reflexivity | eexists; reflexivity].
  - destruct (nativeOnly_buildFullUrl _ _ _ _ B) as [k ->].
    unfold catchBlock. cbn. split; [reflexivity | eexists; reflexivity].
Qed.

Lemma executeRequest_other_method_fails_without_call_witness :
  exists k,
    executeRequest sampleEngine (constantWorld (Rejected "timeout" None) 1000 7)
      (mkParsedRequest (Some "PUT") (Some "https://example.com") (JObj []) (JObj []) (JObj []))
    = Throw (AppError ("Request execution failed: " ++ nativeMessage sampleEngine k) APPERR).
Proof.
  apply (executeRequest_other_method_fails_without_call sampleEngine
           (constantWorld (Rejected "timeout" None) 1000 7)
           (constantWorld (Rejected "timeout" None) 1000 7)
           (mkParsedRequest (Some "PUT") (Some "https://example.com") (JObj []) (JObj [])
              (JObj [])));
    reflexivity.
Defined.

(** X15.  For a URL that is a string, what [buildFullUrl] returns is that
    URL followed by a suffix, and the suffix is empty exactly when the query
    is falsy or has no entry: a query with an entry always changes the
    URL. *)
Theorem buildFullUrl_extends_base :
  forall (engine : Engine) (base : string) (queryParams : json) (fullUrl : option string),
    buildFullUrl engine (Some base) queryParams = Ok fullUrl ->
    exists suffix,
      fullUrl = Some (base ++ suffix)
      /\ (suffix = ""
          <-> truthy engine queryParams = false
              \/ Object_entries engine queryParams = Ok []).
Proof.
  intros engine base q fullUrl. unfold buildFullUrl, Object_keys.
  destruct (truthy engine q) eqn:T; cbn [negb Errors.bind].
  - destruct (Object_entries engine q) as [es|x] eqn:E; cbn [Errors.bind]; [|discriminate].
    destruct es as [|kv es]; cbn [map List.length Nat.eqb].
    + intros [= <-]. exists "". rewrite append_empty_r. split; [reflexivity|].
      split; auto.
    + cbn [mapM]. destruct (encodePair engine kv) as [p|]; cbn [Errors.bind]; [|discriminate].
      destruct (mapM (encodePair engine) es) as [ps|]; cbn [Errors.bind]; [|discriminate].
      intros [= <-]. eexists. split; [reflexivity|]. split.
      * destruct (includes "?" base); discriminate.
      * intros [H|H]; discriminate.
  - intros [= <-]. exists "". rewrite append_empty_r. split; [reflexivity|].
    split; auto.
Qed.

Lemma buildFullUrl_extends_base_witness :
  exists suffix,
    Some "https://example.com?a=1" = Some ("https://example.com" ++ suffix)
    /\ (suffix = ""
        <-> truthy sampleEngine queryA1 = false
            \/ Object_entries sampleEngine queryA1 = Ok []).
Proof.
  apply (buildFullUrl_extends_base sampleEngine "https://example.com" queryA1).
  reflexivity.
Defined.

(** X16.  When the HTTP client resolves the call of a GET or POST request,
    the status of the result is never absent and never 0: it is the
    [statusCode] of the response, else its [status], else 200. *)
Theorem executeRequest_success_status_is_set :
  forall (engine : Engine) (w : World) (parsedRequest : ParsedRequest)
         (fullUrl : option string) (resp : HttpResponse),
    buildFullUrl engine (url parsedRequest) (query parsedRequest) = Ok fullUrl ->
    callOutcome w parsedRequest fullUrl = Some (Resolved resp) ->
    exists r,
      executeRequest engine w parsedRequest = Ok r
      /\ truthyStatus (http_status (response r)) = true
      /\ (truthyStatus (statusCode resp) = true ->
          http_status (response r) = statusCode resp)
      /\ (truthyStatus (statusCode resp) = false -> truthyStatus (status resp) = true ->
          http_status (response r) = status resp)
      /\ (truthyStatus (statusCode resp) = false -> truthyStatus (status resp) = false ->
          http_status (response r) = Some 200).
Proof.
  intros engine w pr fullUrl resp B C. unfold executeRequest, dispatch. rewrite B.
  cbn [Errors.bind]. unfold callOutcome in C.
  assert (D : (if isMethod "GET" (method pr)
               then Errors.bind (await (HttpRequest_get w fullUrl
                                          (mkRequestConfig (headers pr) 10000)))
                      (fun response => Ok (fullUrl, Some response))
               else if isMethod "POST" (method pr)
                    then Errors.bind (await (HttpRequest_post w fullUrl (body pr)
                                               (mkRequestConfig (headers pr) 10000)))
                           (fun response => Ok (fullUrl, Some response))
                    else Ok (fullUrl, None))
              = Ok (fullUrl, Some resp)).
  { destruct (isMethod "GET" (method pr)).
    - injection C as ->. reflexivity.
    - destruct (isMethod "POST" (method pr)); [|discriminate].
      injection C as ->. reflexivity. }
  rewrite D. eexists. split; [reflexivity|]. cbn [response http_status].
  unfold orStatus.
  destruct (truthyStatus (statusCode resp)) eqn:A; cbv iota.
  - rewrite A. repeat split; auto; discriminate.
  - destruct (truthyStatus (status resp)) eqn:B'; cbv iota.
    + repeat split; auto; discriminate.
    + repeat split; auto; discriminate.
Qed.

Lemma executeRequest_success_status_is_set_witness :
  exists r,
    executeRequest sampleEngine
      (constantWorld (Resolved (mkHttpResponse (Some 0) (Some 204) None)) 1000 7)
      roundtripRequest = Ok r
    /\ truthyStatus (http_status (response r)) = true
    /\ (truthyStatus (Some 0) = true -> http_status (response r) = Some 0)
    /\ (truthyStatus (Some 0) = false -> truthyStatus (Some 204) = true ->
        http_status (response r) = Some 204)
    /\ (truthyStatus (Some 0) = false -> truthyStatus (Some 204) = false ->
        http_status (response r) = Some 200).
Proof.
  exact (executeRequest_success_status_is_set sampleEngine
           (constantWorld (Resolved (mkHttpResponse (Some 0) (Some 204) None)) 1000 7)
           roundtripRequest (Some "https://example.com?a=1")
           (mkHttpResponse (Some 0) (Some 204) None) eq_refl eq_refl).
Defined.

(* ===================================================================== *)
(** * The orchestrator and the endpoint *)
(* ===================================================================== *)

(** X17.  A failure of [parseAndExecute] is of one of three kinds, in the
    order of its steps: the error of the schema validator as it is, a
    validation error with a message of the table, or an execution failure.
    In the first two cases the same error is thrown in every world and with
    every engine: nothing was sent. *)
Theorem parseAndExecute_failures :
  forall (RequestData : Type) (validate : RequestData -> M ReqlineParser.Data)
         (engine : Engine) (w : World) (requestData : RequestData) (e : Exception),
    ReqlineParser.parseAndExecute RequestData validate engine w requestData = Throw e ->
    (validate requestData = Throw e
     /\ forall engine' w',
         ReqlineParser.parseAndExecute RequestData validate engine' w' requestData
         = Throw e)
    \/ ((exists data msg,
            validate requestData = Ok data
            /\ parseReqlineSyntax (ReqlineParser.reqline data)
               = Throw (AppError msg VALIDATIONERR)
            /\ inTable msg = true
            /\ e = AppError msg VALIDATIONERR)
        /\ forall engine' w',
            ReqlineParser.parseAndExecute RequestData validate engine' w' requestData
            = Throw e)
    \/ ((exists data parsedRequest,
            validate requestData = Ok data
            /\ parseReqlineSyntax (ReqlineParser.reqline data) = Ok parsedRequest
            /\ executeRequest engine w parsedRequest = Throw e)
        /\ isExecutionFailure e).
Proof.
  intros RequestData validate engine w rd e. unfold ReqlineParser.parseAndExecute.
  destruct (validate rd) as [data|x] eqn:V; cbn [Errors.bind].
  - destruct (parseReqlineSyntax (ReqlineParser.reqline data)) as [pr|x] eqn:P;
      cbn [Errors.bind].
    + destruct (executeRequest engine w pr) as [r|x] eqn:X; cbn [Errors.bind];
        [discriminate|].
      intros [= <-]. right. right. split; [eauto|].
      now apply (executeRequest_Throw_inv engine w pr).
    + intros [= <-]. right. left.
      destruct (tableOnly_parseReqlineSyntax _ _ P) as (msg & Hin & ->).
      split; [|reflexivity]. exists data, msg. auto.
  - intros [= <-]. left. split; reflexivity.
Qed.

Lemma parseAndExecute_failures_witness :
  (acceptAll "HTTP GET" = Throw (AppError ReqlineMessages.MISSING_URL_KEYWORD VALIDATIONERR)
   /\ forall engine' w',
       ReqlineParser.parseAndExecute string acceptAll engine' w' "HTTP GET"
       = Throw (AppError ReqlineMessages.MISSING_URL_KEYWORD VALIDATIONERR))
  \/ ((exists data msg,
          acceptAll "HTTP GET" = Ok data
          /\ parseReqlineSyntax (ReqlineParser.reqline data)
             = Throw (AppError msg VALIDATIONERR)
          /\ inTable msg = true
          /\ AppError ReqlineMessages.MISSING_URL_KEYWORD VALIDATIONERR
             = AppError msg VALIDATIONERR)
      /\ forall engine' w',
          ReqlineParser.parseAndExecute string acceptAll engine' w' "HTTP GET"
          = Throw (AppError ReqlineMessages.MISSING_URL_KEYWORD VALIDATIONERR))
  \/ ((exists data parsedRequest,
          acceptAll "HTTP GET" = Ok data
          /\ parseReqlineSyntax (ReqlineParser.reqline data) = Ok parsedRequest
          /\ executeRequest sampleEngine (constantWorld (Rejected "timeout" None) 1000 7)
               parsedRequest
             = Throw (AppError ReqlineMessages.MISSING_URL_KEYWORD VALIDATIONERR))
      /\ isExecutionFailure (AppError ReqlineMessages.MISSING_URL_KEYWORD VALIDATIONERR)).
Proof.
  exact (parseAndExecute_failures string acceptAll sampleEngine
           (constantWorld (Rejected "timeout" None) 1000 7) "HTTP GET"
           (AppError ReqlineMessages.MISSING_URL_KEYWORD VALIDATIONERR) eq_refl).
Defined.

(** X18.  The answer of the endpoint to a body that passes the schema: a
    reqline that fails validation gives the status BAD_REQUEST with
    [error: true] and a message of the table; a valid reqline whose
    execution fails gives BAD_REQUEST as well, with a message that starts
    with "Request execution failed: "; only a valid reqline whose execution
    returns gives OK, with the result as data.  The kind of the error
    (VALIDATIONERR or APPERR) does not show in the answer. *)
Theorem handler_answers :
  forall (RequestData : Type) (validate : RequestData -> M ReqlineParser.Data)
         (engine : Engine) (w : World) (body : RequestData)
         (helpers : ReqlineEndpoint.Helpers) (data : ReqlineParser.Data),
    validate body = Ok data ->
    let answer :=
      ReqlineEndpoint.handler RequestData
        (ReqlineParser.parseAndExecute RequestData validate engine w) body helpers in
    (forall e,
        parseReqlineSyntax (ReqlineParser.reqline data) = Throw e ->
        answer = ReqlineEndpoint.mkHandlerResult
                   (ReqlineEndpoint.http_statuses_BAD_REQUEST helpers)
                   (ReqlineEndpoint.ErrorData true (Errors.message e))
        /\ inTable (Errors.message e) = true)
    /\ (forall parsedRequest e,
           parseReqlineSyntax (ReqlineParser.reqline data) = Ok parsedRequest ->
           executeRequest engine w parsedRequest = Throw e ->
           exists m,
             answer = ReqlineEndpoint.mkHandlerResult
                        (ReqlineEndpoint.http_statuses_BAD_REQUEST helpers)
                        (ReqlineEndpoint.ErrorData true ("Request execution failed: " ++ m)))
    /\ (forall parsedRequest result,
           parseReqlineSyntax (ReqlineParser.reqline data) = Ok parsedRequest ->
           executeRequest engine w parsedRequest = Ok result ->
           answer = ReqlineEndpoint.mkHandlerResult
                      (ReqlineEndpoint.http_statuses_OK helpers)
                      (ReqlineEndpoint.ResultData result)).
Proof.
  intros RequestData validate engine w body helpers data V answer. subst answer.
  unfold ReqlineEndpoint.handler, ReqlineParser.parseAndExecute. rewrite V.
  cbn [Errors.bind]. split; [|split].
  - intros e P. rewrite P. cbn [Errors.bind]. split; [reflexivity|].
    destruct (tableOnly_parseReqlineSyntax _ _ P) as (msg & Hin & ->). exact Hin.
  - intros pr e P X. rewrite P. cbn [Errors.bind]. rewrite X. cbn [Errors.bind].
    destruct (executeRequest_Throw_inv _ _ _ _ X) as [m ->]. now exists m.
  - intros pr r P X. rewrite P. cbn [Errors.bind]. rewrite X. reflexivity.
Qed.

Lemma handler_answers_witness :
  exists m,
    ReqlineEndpoint.handler string
      (ReqlineParser.parseAndExecute string acceptAll sampleEngine
         (constantWorld (Rejected "timeout" None) 1000 7))
      roundtripReqline sampleHelpers
    = ReqlineEndpoint.mkHandlerResult 400
        (ReqlineEndpoint.ErrorData true ("Request execution failed: " ++ m)).
Proof.
  pose proof (handler_answers string acceptAll sampleEngine
                (constantWorld (Rejected "timeout" None) 1000 7)
                roundtripReqline sampleHelpers (ReqlineParser.mkData roundtripReqline)
                eq_refl) as H.
  cbv zeta in H. destruct H as (_ & H & _).
  exact (H roundtripRequest (AppError "Request execution failed: timeout" APPERR)
           eq_refl eq_refl).
Defined.

(* ===================================================================== *)
(** * A reqline without the word HTTP *)
(* ===================================================================== *)

Lemma piecesBy_app_sep (sep : ascii -> bool) (a b : string) (c : ascii) :
  sep c = true ->
  piecesBy sep (a ++ String c b) = (piecesBy sep a ++ piecesBy sep b)%list.
Proof.
  intros Hc. induction a as [|d r IH].
  - cbn [append]. rewrite piecesBy_cons, Hc. reflexivity.
  - cbn [append]. rewrite !piecesBy_cons, IH. destruct (sep d); [reflexivity|].
    apply consHead_app, piecesBy_nonempty.
Qed.

Lemma piecesBy_avoids (sep : ascii -> bool) (w : string) :
  avoids sep w = true -> piecesBy sep w = [w].
Proof.
  unfold avoids. induction w as [|c r IH]; [reflexivity|].
  cbn [list_ascii_of_string forallb]. intros H. apply andb_prop in H as [Hc Hr].
  rewrite piecesBy_cons. apply negb_true_iff in Hc. rewrite Hc, (IH Hr). reflexivity.
Qed.

(** A text without white space, at the start of a text or after white
    space, and at its end or before white space, is a word of it. *)
Lemma piecesBy_word (pre lead w post : string) :
  allWhiteSpace lead = true ->
  pre = "" \/ lead <> "" ->
  avoids isWhiteSpace w = true ->
  (post = "" \/ exists c q, post = String c q /\ isWhiteSpace c = true) ->
  In w (piecesBy isWhiteSpace (pre ++ lead ++ w ++ post)).
Proof.
  intros Hl Hpre Hw Hpost.
  assert (T : In w (piecesBy isWhiteSpace (w ++ post))).
  { destruct Hpost as [->|(c & q & -> & Hc)].
    - rewrite append_empty_r, (piecesBy_avoids _ _ Hw). now left.
    - rewrite (piecesBy_app_sep _ _ _ _ Hc), (piecesBy_avoids _ _ Hw). now left. }
  destruct (string_snoc lead) as [->|(l0 & c & ->)].
  - destruct Hpre as [->|N]; [exact T | contradiction].
  - assert (Hc : isWhiteSpace c = true).
    { clear - Hl. unfold allWhiteSpace in Hl. induction l0 as [|d r IH].
      - cbn in Hl. now apply andb_prop in Hl as [Hl _].
      - cbn [append list_ascii_of_string forallb] in Hl.
        apply andb_prop in Hl as [_ Hl]. now apply IH. }
    rewrite (append_assoc l0), <- (append_assoc pre). cbn [append].
    rewrite (piecesBy_app_sep _ _ _ _ Hc). apply in_or_app. now right.
Qed.

(** What [trimStart] and [trimEnd] cut off is white space. *)
Lemma trimStart_split (s : string) :
  exists lead, s = lead ++ trimStart s /\ allWhiteSpace lead = true.
Proof.
  induction s as [|c r (lead & E & W)]; [now exists ""|].
  cbn [trimStart]. destruct (isWhiteSpace c) eqn:C.
  - exists (String c lead). cbn [append]. split; [now rewrite <- E|].
    unfold allWhiteSpace in *. cbn. now rewrite C.
  - now exists "".
Qed.

Lemma trimEnd_split (s : string) :
  exists trail, s = trimEnd s ++ trail /\ allWhiteSpace trail = true.
Proof.
  induction s as [|c r (trail & E & W)]; [now exists ""|].
  cbn [trimEnd]. destruct (trimEnd r) as [|d r'] eqn:T.
  - destruct (isWhiteSpace c) eqn:C.
    + exists (String c trail). cbn [append] in *. split; [now rewrite <- E|].
      unfold allWhiteSpace in *. cbn. now rewrite C.
    + exists trail. cbn [append] in *. split; [now rewrite <- E | exact W].
  - exists trail. cbn [append] in *. split; [now rewrite <- E | exact W].
Qed.

Lemma trim_split (s : string) :
  exists lead trail,
    s = lead ++ trim s ++ trail /\ allWhiteSpace lead = true /\ allWhiteSpace trail = true.
Proof.
  destruct (trimStart_split s) as (lead & E & Wl).
  destruct (trimEnd_split (trimStart s)) as (trail & E' & Wt).
  exists lead, trail. unfold trim. now rewrite <- E', <- E.
Qed.

(** A segment of keyword HTTP among those that [splitByPipe] returns makes
    HTTP a word of the text. *)
Lemma http_segment_word (str : string) (segments : list string) (segment : string) :
  splitByPipe str = Ok segments ->
  In segment segments ->
  segmentOf "HTTP" segment = true ->
  In "HTTP" (piecesBy isWhiteSpace str).
Proof.
  intros Sp Hin Hseg.
  destruct (splitByPipe_Ok _ _ Sp) as [Hinc ->].
  apply includes_char in Hinc.
  destruct (splitByPipe_spaced str Hinc) as (_ & Spaced & _). specialize (Spaced Sp).
  apply in_map_iff in Hin as (piece & <- & Hin).
  apply In_nth_error in Hin as [j Hj].
  unfold segmentOf, startsWith in Hseg. apply prefix_split in Hseg.
  set (value := drop _ (trim piece)) in Hseg. clearbody value.
  destruct (trim_split piece) as (lead & trail & Ep & Wl & Wt).
  rewrite Hseg in Ep. clear Hseg.
  assert (Shape : exists pre post,
             str = pre ++ piece ++ post /\ (pre = "" \/ lead <> "")).
  { destruct j as [|j].
    - destruct (split_first_piece "|" str) as (post & E & _).
      destruct (split "|" str) as [|h t]; [discriminate|].
      cbn in Hj. injection Hj as ->. cbn [hd] in E.
      exists "", post. cbn [append]. auto.
    - destruct (split_piece_right "|" str j piece Hj) as (a & b & post & E & -> & _).
      exists (a ++ "|"), post. rewrite append_assoc. cbn [append]. split; [exact E|].
      right. intros ->.
      destruct (Spaced a (piece ++ post) E) as (_ & b' & Eb).
      rewrite Ep in Eb. cbn [append] in Eb. discriminate. }
  destruct Shape as (pre & post & E & Hpre).
  rewrite E, Ep.
  replace (pre ++ (lead ++ (("HTTP" ++ " ") ++ value) ++ trail) ++ post)
    with (pre ++ lead ++ "HTTP" ++ String " " (value ++ trail ++ post))
    by (rewrite !append_assoc; reflexivity).
  apply piecesBy_word; auto.
  right. eexists _, _. split; reflexivity.
Qed.

(** When the loop over the segments of a reqline without the word HTTP ends,
    no HTTP keyword was found. *)
Lemma no_http_word_not_found (reqline : string) (segments : list string) (st : Scan) :
  hasWord "HTTP" reqline = false ->
  splitByPipe (trim reqline) = Ok segments ->
  scanSegments segments = Ok st ->
  httpFound st = false.
Proof.
  intros Hw Sp Sc. destruct (httpFound st) eqn:F; [|reflexivity].
  unfold scanSegments in Sc.
  destruct (forEach_parseSegment_Ok segments 0 initialScan st Sc) as (_ & Hh & _).
  destruct (Hh F) as [H|(j & segment & Hj & Hseg & _)]; [discriminate|].
  apply nth_error_In in Hj.
  pose proof (http_segment_word _ _ _ Sp Hj Hseg) as W.
  apply piecesBy_trim in W.
  unfold hasWord in Hw. apply arrayIncludes_In in W. congruence.
Qed.

(** C3 (as amended).  An input in which neither HTTP nor http occurs as a
    word delimited by white space is never accepted.  It fails with
    "Missing required HTTP keyword" when it is not blank and holds no pipe,
    and also when it holds pipes and every check before the final one
    passes: [splitByPipe] returns the segments and the loop of
    [parseSegments] over them ends.  Another message comes only from a
    check that fails before: "Reqline string cannot be empty" for the blank
    input, "Invalid spacing around pipe delimiter", or the message of the
    first segment that the loop refuses. *)
Theorem missing_http_keyword_unless_earlier_failure :
  forall reqline : string,
    hasWord "HTTP" reqline = false ->
    hasWord "http" reqline = false ->
    (forall parsed, parseReqlineSyntax reqline <> Ok parsed)
    /\ (trim reqline <> "" ->
        ~ holds "|" reqline ->
        parseReqlineSyntax reqline
        = Throw (AppError ReqlineMessages.MISSING_HTTP_KEYWORD VALIDATIONERR))
    /\ (forall segments st,
           splitByPipe (trim reqline) = Ok segments ->
           scanSegments segments = Ok st ->
           parseReqlineSyntax reqline
           = Throw (AppError ReqlineMessages.MISSING_HTTP_KEYWORD VALIDATIONERR))
    /\ (forall e,
           parseReqlineSyntax reqline = Throw e ->
           e = AppError ReqlineMessages.MISSING_HTTP_KEYWORD VALIDATIONERR
           \/ (trim reqline = ""
               /\ e = AppError ReqlineMessages.EMPTY_REQLINE VALIDATIONERR)
           \/ (holds "|" reqline
               /\ e = AppError ReqlineMessages.INVALID_SPACING_AROUND_PIPE VALIDATIONERR)
           \/ exists segments,
               splitByPipe (trim reqline) = Ok segments
               /\ scanSegments segments = Throw e).
Proof.
  intros reqline Hu Hl.
  assert (Final : forall segments st,
             splitByPipe (trim reqline) = Ok segments ->
             scanSegments segments = Ok st ->
             parseSegments segments
             = Throw (AppError ReqlineMessages.MISSING_HTTP_KEYWORD VALIDATIONERR)).
  { intros segments st Sp Sc. unfold parseSegments. rewrite Sc. cbn [Errors.bind].
    now rewrite (no_http_word_not_found _ _ _ Hu Sp Sc). }
  split; [|split; [|split]].
  - intros parsed H. unfold parseReqlineSyntax in H.
    destruct (String.eqb (trim reqline) ""); [discriminate|]. cbn [Errors.bind] in H.
    destruct (splitByPipe (trim reqline)) as [segments|] eqn:Sp; [|discriminate].
    cbn [Errors.bind] in H.
    destruct (scanSegments segments) as [st|x] eqn:Sc.
    + rewrite (Final _ _ eq_refl Sc) in H. discriminate.
    + unfold parseSegments in H. rewrite Sc in H. discriminate.
  - intros Hne Hpipe. now apply missing_http_keyword_no_pipe.
  - intros segments st Sp Sc. unfold parseReqlineSyntax.
    destruct (String.eqb (trim reqline) "") eqn:B.
    + apply String.eqb_eq in B. rewrite B in Sp. discriminate.
    + cbn [Errors.bind]. rewrite Sp. cbn [Errors.bind].
      now rewrite (Final _ _ Sp Sc).
  - intros e H. unfold parseReqlineSyntax in H.
    destruct (String.eqb (trim reqline) "") eqn:B.
    + apply String.eqb_eq in B. cbn in H. injection H as <-. auto.
    + cbn [Errors.bind] in H.
      destruct (splitByPipe (trim reqline)) as [segments|x] eqn:Sp.
      * cbn [Errors.bind] in H.
        destruct (scanSegments segments) as [st|x] eqn:Sc.
        -- rewrite (Final _ _ eq_refl Sc) in H. cbn in H. injection H as <-. now left.
        -- unfold parseSegments in H. rewrite Sc in H. cbn in H. injection H as <-.
           right. right. right. now exists segments.
      * cbn in H. injection H as <-.
        destruct (includes "|" (trim reqline)) eqn:P.
        -- apply includes_char in P.
           destruct (splitByPipe_spaced _ P) as (_ & _ & [Q|Q]); rewrite Q in Sp;
             [discriminate|]. injection Sp as <-.
           right. right. left. split; [now apply holds_trim | reflexivity].
        -- left. unfold splitByPipe in Sp. rewrite P in Sp. cbn [negb] in Sp.
           assert (U : arrayIncludes "HTTP" (split " " (trim reqline)) = false).
           { destruct (arrayIncludes "HTTP" _) eqn:E; [|reflexivity].
             apply word_of_trimmed in E; [congruence | reflexivity]. }
           assert (L : arrayIncludes "http" (split " " (trim reqline)) = false).
           { destruct (arrayIncludes "http" _) eqn:E; [|reflexivity].
             apply word_of_trimmed in E; [congruence | reflexivity]. }
           rewrite U, L in Sp. cbn in Sp. now injection Sp as <-.
Qed.

Lemma missing_http_keyword_unless_earlier_failure_witness :
  parseReqlineSyntax "URL https://example.com"
  = Throw (AppError ReqlineMessages.MISSING_HTTP_KEYWORD VALIDATIONERR)
  /\ parseReqlineSyntax "HEADERS {} | QUERY {}"
     = Throw (AppError ReqlineMessages.MISSING_HTTP_KEYWORD VALIDATIONERR).
Proof.
  split.
  - destruct (missing_http_keyword_unless_earlier_failure "URL https://example.com"
                eq_refl eq_refl) as (_ & H & _).
    apply H; [discriminate|]. unfold holds. simpl. intuition discriminate.
  - destruct (missing_http_keyword_unless_earlier_failure "HEADERS {} | QUERY {}"
                eq_refl eq_refl) as (_ & _ & H & _).
    now apply (H ["HEADERS {}"; "QUERY {}"]
                 (mkScan (mkParsedRequest None None (JObj []) (JObj []) (JObj []))
                    false false)).
Defined.

(* ===================================================================== *)
(** * The cases of the test suite *)
(* ===================================================================== *)

Example test_error_messages :
  map parseReqlineSyntax
    [ "URL https://example.com";
      "HTTP GET";
      "HTTP PUT | URL https://example.com";
      "HTTP get | URL https://example.com";
      "http GET | URL https://example.com";
      "HTTP GET |URL https://example.com";
      "HTTP GET | URL https://example.com | HEADERS {invalid json}";
      "HTTP  GET | URL https://example.com";
      "HTTP GET | URLhttps://example.com" ]
  = map (fun msg => Throw (AppError msg VALIDATIONERR))
      [ ReqlineMessages.MISSING_HTTP_KEYWORD;
        ReqlineMessages.MISSING_URL_KEYWORD;
        ReqlineMessages.INVALID_HTTP_METHOD;
        ReqlineMessages.HTTP_METHOD_MUST_BE_UPPERCASE;
        ReqlineMessages.KEYWORDS_MUST_BE_UPPERCASE;
        ReqlineMessages.INVALID_SPACING_AROUND_PIPE;
        ReqlineMessages.INVALID_JSON_FORMAT_HEADERS;
        ReqlineMessages.MULTIPLE_SPACES_FOUND;
        ReqlineMessages.MISSING_SPACE_AFTER_KEYWORD ].
Proof. reflexivity. Qed.

Example test_get_with_query :
  (parsed <- parseReqlineSyntax
               ("HTTP GET | URL https://dummyjson.com/quotes/3 | QUERY {"
                  ++ quoted "refid" ++ ": 1920933}") ;;
   buildFullUrl sampleEngine (url parsed) (query parsed))
  = Ok (Some "https://dummyjson.com/quotes/3?refid=1920933").
Proof. reflexivity. Qed.

Example test_post_with_headers_and_body :
  parseReqlineSyntax
    ("HTTP POST | URL https://dummyjson.com/posts/add | HEADERS {"
       ++ quoted "Content-Type" ++ ": " ++ quoted "application/json" ++ "} | BODY {"
       ++ quoted "title" ++ ": " ++ quoted "Test Post" ++ ", "
       ++ quoted "body" ++ ": " ++ quoted "Test content" ++ ", "
       ++ quoted "userId" ++ ": 1}")
  = Ok (mkParsedRequest (Some "POST") (Some "https://dummyjson.com/posts/add")
          (JObj [(u "Content-Type", JStr (u "application/json"))])
          (JObj [])
          (JObj [(u "title", JStr (u "Test Post")); (u "body", JStr (u "Test content"));
                 (u "userId", JNum (Int 1))])).
Proof. reflexivity. Qed.

Example test_buildFullUrl :
  buildFullUrl sampleEngine (Some "https://example.com")
    (JObj [(u "page", JNum (Int 1)); (u "limit", JNum (Int 10))])
  = Ok (Some "https://example.com?page=1&limit=10")
  /\ buildFullUrl sampleEngine (Some "https://example.com") (JObj [])
     = Ok (Some "https://example.com")
  /\ buildFullUrl sampleEngine (Some "https://example.com?existing=true")
       (JObj [(u "page", JNum (Int 1))])
     = Ok (Some "https://example.com?existing=true&page=1").
Proof. repeat split. Qed.

(** Values of a query that are not numbers: a string with reserved
    characters, an array, [null], a nested object; keys that are array
    indices come first. *)
Example buildFullUrl_other_values :
  buildFullUrl sampleEngine (Some "h")
    (JObj [ (u "b", JStr (u "x y&z/="));
            (u "10", JNull);
            (u "2", JArr [JNum (Int 1); JNull; JArr [JBool true; JStr (u "s")]]);
            (u "o", JObj []) ])
  = Ok (Some "h?2=1%2C%2Ctrue%2Cs&10=null&b=x%20y%26z%2F%3D&o=%5Bobject%20Object%5D")
  /\ buildFullUrl sampleEngine (Some "h") (JNum (Int 5)) = Ok (Some "h")
  /\ buildFullUrl sampleEngine (Some "h") JNull = Ok (Some "h")
  /\ buildFullUrl sampleEngine (Some "h") (JStr (u "ab")) = Ok (Some "h?0=a&1=b")
  /\ buildFullUrl sampleEngine (Some "h") (JObj [(u "k", JStr [55357; 56832]%N)])
     = Ok (Some "h?k=%F0%9F%98%80")
  /\ buildFullUrl sampleEngine (Some "h") (JObj [(u "k", JStr [55357]%N)])
     = Throw (NativeError "native error").
Proof. repeat split. Qed.

Example JSON_parse_cases :
  map JSON.parse ["5"; "-0"; "1e5"; "[]"; "{}"; " [1, true, null] "; "-12"]
  = [ Some (JNum (Int 5)); Some (JNum (Dec "-0")); Some (JNum (Dec "1e5"));
      Some (JArr []); Some (JObj []);
      Some (JArr [JNum (Int 1); JBool true; JNull]); Some (JNum (Int (-12))) ]
  /\ map JSON.parse
       ["{bad}"; "01"; "1."; "[1,]"; "{,}"; ""; "tru"; "1 2"; "]"; "-"; "nul"; "[1"; "+1"; ".5"]
     = repeat None 14
  /\ JSON.parse ("{" ++ quoted "k" ++ ":1," ++ quoted "jA\n" ++ ":[{}]," ++ quoted "k"
                   ++ ":" ++ quoted "" ++ "}")
     = Some (JObj [(u "k", JStr []); ([106; 65; 10]%N, JArr [JObj []])]).
Proof. repeat split. Qed.
